(** * Band-structure plotting scripts for CoFeMnTi: a shallow embedding

    The scripts under [scripts/] read text output of an electronic-structure
    code and draw it.  This development embeds the parts that compute:

    - the band segmenter of [plot_bands_improved.py] and
      [plot_spin_resolved_bands.py] (the loop that collects [band_breaks],
      the loop that slices [k_coord] and [energy] between consecutive
      breaks, and the [len(k_segment) > 1] guard in front of [plot]);
    - [read_dos_fermi] / the header part of [read_dos_file];
    - [read_bands_data].

    Python floats are IEEE 754 binary64 values; they are modelled by
    [spec_float] with the comparison of the Standard Library's
    specification of binary floating point. *)

From Stdlib Require Import Ascii String.
From Stdlib Require Import List Arith ZArith Lia Bool Sorted Permutation.
From Stdlib Require Import Floats.SpecFloat.
Import ListNotations.

(** ** Python floats *)

Module Float64.

Definition prec : Z := 53.
Definition emax : Z := 1024.

Definition float : Type := spec_float.

Definition nan : float := S754_nan.

(** [x < y] and [x <= y] on floats: false as soon as one side is NaN. *)
Definition ltb (x y : float) : bool := SFltb x y.
Definition leb (x y : float) : bool := SFleb x y.

(** [x - y], rounded to nearest even. *)
Definition sub (x y : float) : float := SFsub prec emax x y.

Definition is_nan (x : float) : bool :=
  match x with S754_nan => true | _ => false end.

End Float64.

Import Float64.

(** ** Exceptions *)

(** The exceptions the embedded code can raise. *)
Inductive exn : Type :=
| IndexError   (* a list index out of range *)
| ValueError.  (* [float] applied to a string that is not a numeral *)

Inductive result (A : Type) : Type :=
| Ok (a : A)
| Raise (e : exn).

Arguments Ok {A} a.
Arguments Raise {A} e.

Definition bind {A B : Type} (r : result A) (f : A -> result B) : result B :=
  match r with
  | Ok a => f a
  | Raise e => Raise e
  end.

Notation "x <- r ;; k" := (bind r (fun x => k))
  (at level 61, r at next level, right associativity).

(** [[f(x) for x in xs]]: the elements are visited from left to right and
    the first exception ends the comprehension. *)
Fixpoint comprehension {A B : Type} (f : A -> result B) (xs : list A)
  : result (list B) :=
  match xs with
  | [] => Ok []
  | x :: xs' =>
      y <- f x ;;
      ys <- comprehension f xs' ;;
      Ok (y :: ys)
  end.

(** [l[i]] on a Python list, for [i >= 0]. *)
Definition getitem {A : Type} (l : list A) (i : nat) : result A :=
  match nth_error l i with
  | Some x => Ok x
  | None => Raise IndexError
  end.

(** ** Sequences *)

(** [range(a, b)] *)
Definition range (a b : nat) : list nat := seq a (b - a).

(** [a[s:e]] for non-negative [s] and [e]: out-of-range bounds are clamped,
    and the slice is empty when [e <= s]. *)
Definition slice {A : Type} (a : list A) (s e : nat) : list A :=
  firstn (e - s) (skipn s a).

(** ** Python strings

    A [str] is modelled by the list of its characters, each a code point
    below 256. *)

Module PyStr.

Definition str : Type := list ascii.

(** A string literal of the scripts. *)
Definition py (s : string) : str := list_ascii_of_string s.

(** [c.isspace()] on the code points below 256: tab to carriage return,
    the four separators 0x1c-0x1f, the space, NEL and the no-break space. *)
Definition isspace (c : ascii) : bool :=
  let n := nat_of_ascii c in
  ((9 <=? n) && (n <=? 13)) || ((28 <=? n) && (n <=? 32))
  || (n =? 133) || (n =? 160).

Fixpoint lstrip (s : str) : str :=
  match s with
  | c :: s' => if isspace c then lstrip s' else s
  | [] => []
  end.

Definition rstrip (s : str) : str := rev (lstrip (rev s)).

(** [s.strip()] *)
Definition strip (s : str) : str := rstrip (lstrip s).

(** [s.startswith(p)] *)
Fixpoint startswith (p s : str) : bool :=
  match p with
  | [] => true
  | a :: p' =>
      match s with
      | [] => false
      | b :: s' => Ascii.eqb a b && startswith p' s'
      end
  end.

(** [s.split()]: the maximal runs of characters that are not whitespace.
    [word] is the run being read. *)
Fixpoint split_ws_from (word : str) (s : str) : list str :=
  match s with
  | [] => match word with [] => [] | _ => [word] end
  | c :: s' =>
      if isspace c
      then match word with
           | [] => split_ws_from [] s'
           | _ => word :: split_ws_from [] s'
           end
      else split_ws_from (word ++ [c]) s'
  end.

Definition split_ws (s : str) : list str := split_ws_from [] s.

(** [s.split(sep)] for a non-empty [sep]: the text is cut at the
    occurrences of [sep] found from left to right, the search resuming
    after each occurrence.  [skip] counts the characters of the
    occurrence just found that are still to be passed over, [piece] is
    the piece being read. *)
Fixpoint split_from (sep : str) (skip : nat) (piece : str) (s : str)
  : list str :=
  match s with
  | [] => [piece]
  | c :: s' =>
      match skip with
      | S n => split_from sep n piece s'
      | O =>
          if startswith sep s
          then piece :: split_from sep (length sep - 1) [] s'
          else split_from sep 0 (piece ++ [c]) s'
      end
  end.

Definition split (sep s : str) : list str := split_from sep 0 [] s.

(** [s.find(sep)]: the lowest index at which [sep] occurs in [s]. *)
Fixpoint find (sep s : str) : option nat :=
  if startswith sep s then Some 0
  else match s with
       | [] => None
       | _ :: s' => option_map S (find sep s')
       end.

(** [s.lower()] on the letters A-Z. *)
Definition lower_char (c : ascii) : ascii :=
  let n := nat_of_ascii c in
  if (65 <=? n) && (n <=? 90) then ascii_of_nat (n + 32) else c.

Definition lower (s : str) : str := map lower_char s.

Definition eqb (s t : str) : bool :=
  if list_eq_dec ascii_dec s t then true else false.

End PyStr.

Import PyStr.

(** ** [float(s)] on a string

    The grammar of the language reference:
<<
    floatvalue  ::= [sign] (floatnumber | "inf" | "infinity" | "nan")
    floatnumber ::= number [exponent]
    number      ::= [digitpart] "." digitpart | digitpart ["."]
    exponent    ::= ("e" | "E") [sign] digitpart
    digitpart   ::= digit (["_"] digit)*
>>
    after surrounding whitespace is removed, case being ignored in [inf],
    [infinity] and [nan].  The decimal value is rounded to the nearest
    binary64 number, ties to even. *)

Module PyFloat.

Definition digit_of (c : ascii) : option Z :=
  let n := nat_of_ascii c in
  if (48 <=? n) && (n <=? 57) then Some (Z.of_nat (n - 48)) else None.

(** The rest of a [digitpart] after its first digit.  [acc] is the value
    of the digits read so far and [n] their number. *)
Fixpoint digits_more (acc : Z) (n : nat) (s : str) : Z * nat * str :=
  match s with
  | c :: s' =>
      match digit_of c with
      | Some d => digits_more (10 * acc + d) (S n) s'
      | None =>
          if Ascii.eqb c "_"
          then match s' with
               | c' :: s'' =>
                   match digit_of c' with
                   | Some d => digits_more (10 * acc + d) (S n) s''
                   | None => (acc, n, s)
                   end
               | [] => (acc, n, s)
               end
          else (acc, n, s)
      end
  | [] => (acc, n, s)
  end.

Definition digitpart (acc : Z) (s : str) : option (Z * nat * str) :=
  match s with
  | c :: s' =>
      match digit_of c with
      | Some d => Some (digits_more (10 * acc + d) 1 s')
      | None => None
      end
  | [] => None
  end.

(** [number]: the digits read as one integer, the number of digits after
    the point, and the text left. *)
Definition number (s : str) : option (Z * nat * str) :=
  match digitpart 0 s with
  | Some (i, _, rest) =>
      match rest with
      | "."%char :: rest' =>
          match digitpart i rest' with
          | Some (m, nfrac, rest'') => Some (m, nfrac, rest'')
          | None => Some (i, 0, rest')
          end
      | _ => Some (i, 0, rest)
      end
  | None =>
      match s with
      | "."%char :: rest' => digitpart 0 rest'
      | _ => None
      end
  end.

Definition sign (s : str) : bool * str :=
  match s with
  | "-"%char :: s' => (true, s')
  | "+"%char :: s' => (false, s')
  | _ => (false, s)
  end.

(** [exponent], when one can be read at the head of [s]. *)
Definition exponent (s : str) : Z * str :=
  match s with
  | c :: s' =>
      if Ascii.eqb (lower_char c) "e"
      then let (neg, s'') := sign s' in
           match digitpart 0 s'' with
           | Some (e, _, rest) => (if neg then (- e)%Z else e, rest)
           | None => (0%Z, s)
           end
      else (0%Z, s)
  | [] => (0%Z, s)
  end.

(** The binary64 number nearest to [m * 10 ^ e10], for [m >= 0]. *)
Definition of_decimal (m e10 : Z) : float :=
  match m with
  | Z0 => S754_zero false
  | Zpos p =>
      match e10 with
      | Zneg q =>
          let '(mz, ez, lz) :=
            SFdiv_core_binary prec emax (Zpos p) 0 (Z.pow_pos 10 q) 0 in
          binary_round_aux prec emax false mz ez lz
      | _ => binary_normalize prec emax (Zpos p * 10 ^ e10) 0 false
      end
  | Zneg _ => nan
  end.

Definition py_float (s : str) : result float :=
  let (neg, body) := sign (strip s) in
  let word := lower body in
  if PyStr.eqb word (py "inf") || PyStr.eqb word (py "infinity")
  then Ok (S754_infinity neg)
  else if PyStr.eqb word (py "nan") then Ok nan
  else
    match number body with
    | Some (m, nfrac, rest) =>
        match exponent rest with
        | (e, []) =>
            let x := of_decimal m (e - Z.of_nat nfrac) in
            Ok (if neg then SFopp x else x)
        | _ => Raise ValueError
        end
    | None => Raise ValueError
    end.

End PyFloat.

Import PyFloat.

(** ** The band segmenter *)

Module Segmenter.

(** [k_coord[i]]; the loops below only use indices that are in range. *)
Definition item (k_coord : list float) (i : nat) : float := nth i k_coord nan.

(** Body of the scanning loop:
    [if k_coord[i] < k_coord[i-1]: band_breaks.append(i)]. *)
Definition scan_step (k_coord : list float) (band_breaks : list nat) (i : nat)
  : list nat :=
  if ltb (item k_coord i) (item k_coord (i - 1))
  then band_breaks ++ [i]
  else band_breaks.

(** [band_breaks = [0]; for i in range(1, len(k_coord)): ...;
     band_breaks.append(len(k_coord))]. *)
Definition band_breaks (k_coord : list float) : list nat :=
  fold_left (scan_step k_coord) (range 1 (length k_coord)) [0]
    ++ [length k_coord].

(** One pass of the slicing loop: [start_idx = band_breaks[i]],
    [end_idx = band_breaks[i+1]], and the two slices. *)
Definition segment_at (k_coord energy : list float) (breaks : list nat) (i : nat)
  : list float * list float :=
  let start_idx := nth i breaks 0 in
  let end_idx := nth (i + 1) breaks 0 in
  (slice k_coord start_idx end_idx, slice energy start_idx end_idx).

(** The segments, in the order the loop
    [for i in range(len(band_breaks)-1)] visits them. *)
Definition segments (k_coord energy : list float)
  : list (list float * list float) :=
  let breaks := band_breaks k_coord in
  map (segment_at k_coord energy breaks) (range 0 (length breaks - 1)).

Definition k_segments (k_coord : list float) : list (list float) :=
  map fst (segments k_coord k_coord).

End Segmenter.

Import Segmenter.

(** ** Drawing

    An axes is modelled by the lines it holds, in the order of the [plot]
    calls that drew them; a line is its x and y data. *)

Definition line : Type := (list float * list float)%type.
Definition axes : Type := list line.

Definition plot (ax : axes) (x y : list float) : axes := ax ++ [(x, y)].

(** The array [data] of a bands file is modelled by its rows, reduced to
    the two columns the scripts read: [data[:, 0]] and [data[:, 1]]. *)
Definition column0 (data : list (float * float)) : list float := map fst data.
Definition column1 (data : list (float * float)) : list float := map snd data.

(** [a - fermi_energy] on an array. *)
Definition shift (fermi_energy : float) (a : list float) : list float :=
  map (fun e => sub e fermi_energy) a.

(** [plot_bands_improved.py] *)
Module PlotBandsImproved.

(** [k_segment] and [e_segment] of pass [i] of the drawing loop. *)
Definition improved_segment (fermi_energy : float) (k_coord energy : list float)
  (breaks : list nat) (i : nat) : line :=
  let '(k_segment, e_slice) := segment_at k_coord energy breaks i in
  (k_segment, shift fermi_energy e_slice).

Definition improved_step (fermi_energy : float) (k_coord energy : list float)
  (breaks : list nat) (ax : axes) (i : nat) : axes :=
  let '(k_segment, e_segment) := improved_segment fermi_energy k_coord energy breaks i in
  if 1 <? length k_segment then plot ax k_segment e_segment else ax.

(** The segments the loop computes, drawn or not. *)
Definition improved_segments (fermi_energy : float) (data : list (float * float))
  : list line :=
  let k_coord := column0 data in
  let energy := column1 data in
  let breaks := band_breaks k_coord in
  map (improved_segment fermi_energy k_coord energy breaks)
      (range 0 (length breaks - 1)).

(** The band lines of the figure. *)
Definition plot_bands_improved (fermi_energy : float)
  (data : list (float * float)) : axes :=
  let k_coord := column0 data in
  let energy := column1 data in
  let breaks := band_breaks k_coord in
  fold_left (improved_step fermi_energy k_coord energy breaks)
            (range 0 (length breaks - 1)) [].

End PlotBandsImproved.

(** [plot_spin_resolved_bands.py], left panel: the energies are shifted
    before the slicing loop. *)
Module PlotSpinResolvedBands.

Definition spin_step (k_coord energy : list float) (breaks : list nat)
  (ax : axes) (i : nat) : axes :=
  let '(k_segment, e_segment) := segment_at k_coord energy breaks i in
  if 1 <? length k_segment then plot ax k_segment e_segment else ax.

Definition spin_segments (fermi_energy : float) (data : list (float * float))
  : list line :=
  segments (column0 data) (shift fermi_energy (column1 data)).

Definition plot_spin_resolved_bands (fermi_energy : float)
  (data : list (float * float)) : axes :=
  let k_coord := column0 data in
  let energy := shift fermi_energy (column1 data) in
  let breaks := band_breaks k_coord in
  fold_left (spin_step k_coord energy breaks)
            (range 0 (length breaks - 1)) [].

End PlotSpinResolvedBands.

(** [plot_spin_resolved_bands.py], right panel: the same slicing loop, with
    a second test in front of [plot]. *)
Module PlotSpinResolvedZoom.

(** [np.abs(x)] on a float. *)
Definition float_abs (x : float) : float := SFabs x.

(** The float the integer literal [3] is converted to in a comparison with
    a float array. *)
Definition f3_0 : float := S754_finite false 6755399441055744 (-51).

(** [np.any(np.abs(e_segment) < 3)] *)
Definition near_fermi (e_segment : list float) : bool :=
  existsb (fun e => ltb (float_abs e) f3_0) e_segment.

Definition zoom_step (k_coord energy : list float) (breaks : list nat)
  (ax : axes) (i : nat) : axes :=
  let '(k_segment, e_segment) := segment_at k_coord energy breaks i in
  if (1 <? length k_segment) && near_fermi e_segment
  then plot ax k_segment e_segment
  else ax.

Definition plot_spin_resolved_zoom (fermi_energy : float)
  (data : list (float * float)) : axes :=
  let k_coord := column0 data in
  let energy := shift fermi_energy (column1 data) in
  let breaks := band_breaks k_coord in
  fold_left (zoom_step k_coord energy breaks)
            (range 0 (length breaks - 1)) [].

End PlotSpinResolvedZoom.

(** ** The readers *)

Module Readers.

(** [read_dos_fermi], and the first lines of [read_dos_file], applied to
    the line [f.readline()] returns. *)
Definition read_dos_fermi (header : str) : result float :=
  after <- getitem (split (py "EFermi =") header) 1 ;;
  fermi_str <- getitem (split (py "eV") after) 0 ;;
  py_float (strip fermi_str).

Section ReadBands.

(** [np.array] is left abstract: it builds an array from the rows, or
    raises. *)
Variable ndarray : Type.
Variable np_array : list (list float) -> result ndarray.

(** Body of the first loop: [line = line.strip()] and
    [if line and not line.startswith('#'): data_lines.append(line)]. *)
Definition collect_step (data_lines : list str) (line : str) : list str :=
  let line := strip line in
  if negb (PyStr.eqb line []) && negb (startswith (py "#") line)
  then data_lines ++ [line]
  else data_lines.

(** Body of the second loop: [parts = line.split()] and
    [if len(parts) >= 2: data.append([float(x) for x in parts])]. *)
Definition parse_step (data : result (list (list float))) (line : str)
  : result (list (list float)) :=
  rows <- data ;;
  let parts := split_ws line in
  if 2 <=? length parts
  then row <- comprehension py_float parts ;; Ok (rows ++ [row])
  else Ok rows.

(** [read_bands_data] applied to the list [f.readlines()] returns. *)
Definition read_bands_data (lines : list str) : result ndarray :=
  let data_lines := fold_left collect_step lines [] in
  data <- fold_left parse_step data_lines (Ok []) ;;
  np_array data.

End ReadBands.

End Readers.

Import Readers.

(** ** Arrays

    What [np.loadtxt] and [np.array] return to the scripts: a
    one-dimensional array, or a two-dimensional array of rows with [ncols]
    entries each.  [np.loadtxt] returns a one-dimensional array for a file
    of no row or of one row, and [np.array([])] is one-dimensional. *)

Inductive array : Type :=
| Array1 (values : list float)
| Array2 (ncols : nat) (rows : list (list float)).

(** [len(data)] *)
Definition len (data : array) : nat :=
  match data with
  | Array1 values => length values
  | Array2 _ rows => length rows
  end.

(** [data[:, c]]: two indices on a one-dimensional array, or a column that
    is not there, raise [IndexError]. *)
Definition column (data : array) (c : nat) : result (list float) :=
  match data with
  | Array1 _ => Raise IndexError
  | Array2 ncols rows =>
      if c <? ncols then Ok (map (fun row => nth c row nan) rows)
      else Raise IndexError
  end.

(** The scripts from the loaded array on: [k_coord = data[:, 0]],
    [energy = data[:, 1]], then the loops. *)
Module Scripts.

(** [plot_bands_improved], given the array [np.loadtxt] returned. *)
Definition improved_from_array (fermi_energy : float) (data : array)
  : result axes :=
  k_coord <- column data 0 ;;
  energy <- column data 1 ;;
  Ok (PlotBandsImproved.plot_bands_improved fermi_energy
        (combine k_coord energy)).

(** The [try] / [except] of [plot_spin_resolved_bands], given the lines of
    the two bands files, both present: the corrected file is read, and the
    original one when that raises. *)
Definition load_bands (np_array : list (list float) -> result array)
  (fixed original : list str) : result array :=
  match read_bands_data array np_array fixed with
  | Ok data => Ok data
  | Raise _ => read_bands_data array np_array original
  end.

(** [plot_spin_resolved_bands], left panel. *)
Definition spin_resolved_from_lines
  (np_array : list (list float) -> result array)
  (fermi_energy : float) (fixed original : list str) : result axes :=
  data <- load_bands np_array fixed original ;;
  k_coord <- column data 0 ;;
  energy <- column data 1 ;;
  Ok (PlotSpinResolvedBands.plot_spin_resolved_bands fermi_energy
        (combine k_coord energy)).

End Scripts.

(** [plot_bands_improved.py], [analyze_band_structure], given the array
    [np.loadtxt] returned: what it prints after the Fermi energy. *)
Module AnalyzeBandStructure.

(** The float of the literal [0.1]. *)
Definition tolerance : float := S754_finite false 7205759403792794 (-56).

(** [fermi_crossings = np.abs(energy) < 0.1] *)
Definition fermi_crossings (energy : list float) : list bool :=
  map (fun e => ltb (SFabs e) tolerance) energy.

(** [np.sum(fermi_crossings)]: the number of [True] entries. *)
Definition crossing_points (energy : list float) : nat :=
  length (filter (fun b : bool => b) (fermi_crossings energy)).

(** The number of k-points, the number of points at the Fermi level, and
    the branch of [if np.sum(fermi_crossings) > 0] ([true] for the message
    that the system appears to be metallic).  The energy range printed in
    between is left out, except that [np.min] raises [ValueError] on an
    array without entries (a two-dimensional array without rows, which
    [np.loadtxt] does not return). *)
Definition analyze_band_structure (fermi_energy : float) (data : array)
  : result (nat * nat * bool) :=
  column1 <- column data 1 ;;
  let energy := shift fermi_energy column1 in
  match energy with
  | [] => Raise ValueError
  | _ => Ok (len data, crossing_points energy, 0 <? crossing_points energy)
  end.

End AnalyzeBandStructure.

(** ** Vocabulary of the statements *)

(** The test of the scanning loop at index [i]. *)
Definition descent (k_coord : list float) (i : nat) : bool :=
  ltb (item k_coord i) (item k_coord (i - 1)).

(** The indices strictly between [0] and [len(k_coord)] that pass the test. *)
Definition interior (k_coord : list float) : list nat :=
  filter (descent k_coord) (range 1 (length k_coord)).

(** The number of places where a value is smaller than the one before it. *)
Fixpoint descents (k_coord : list float) : nat :=
  match k_coord with
  | a :: (b :: _) as rest => (if ltb b a then 1 else 0) + descents rest
  | _ => 0
  end.

(** The consecutive pairs of a list of boundaries. *)
Fixpoint adjacent (breaks : list nat) : list (nat * nat) :=
  match breaks with
  | s :: (e :: _) as rest => (s, e) :: adjacent rest
  | _ => []
  end.

(** The test in front of [plot]: [len(k_segment) > 1]. *)
Definition drawable (seg : line) : bool := 1 <? length (fst seg).

(** The text of [s] before the first occurrence of [sep], all of [s] when
    there is none. *)
Definition before (sep s : str) : str :=
  match find sep s with
  | Some n => firstn n s
  | None => s
  end.

(** A stripped line is retained when it is not blank, does not start with
    [#] and has at least two whitespace-delimited fields. *)
Definition retained (line : str) : bool :=
  negb (PyStr.eqb line []) && negb (startswith (py "#") line)
  && (2 <=? length (split_ws line)).

(** The fields of a line, each converted by [float]. *)
Definition row_of (line : str) : result (list float) :=
  comprehension py_float (split_ws line).

(** The rows [rows] are what [float] makes of the fields of the lines
    [lines], line by line and field by field. *)
Definition rows_of_lines (lines : list str) (rows : list (list float)) : Prop :=
  Forall2 (fun line row =>
             Forall2 (fun x v => py_float x = Ok v) (split_ws line) row)
          lines rows.

(** [read_bands_data] as one pass: the rows of the retained lines, in file
    order. *)
Definition retained_rows {ndarray : Type}
  (np_array : list (list float) -> result ndarray) (lines : list str)
  : result ndarray :=
  rows <- comprehension row_of (filter retained (map strip lines)) ;;
  np_array rows.

(** The list [data] that [read_bands_data] hands to [np.array]. *)
Definition bands_rows (lines : list str) : result (list (list float)) :=
  read_bands_data (list (list float)) Ok lines.

(** A character other than [e] and [E]. *)
Definition plain_char (c : ascii) : bool :=
  negb (Ascii.eqb c "e") && negb (Ascii.eqb c "E").

(** No k-coordinate is smaller than the one before it. *)
Definition no_descent (k_coord : list float) : Prop :=
  forall j, S j < length k_coord ->
            ltb (nth (S j) k_coord nan) (nth j k_coord nan) = false.

(** Binary64 values of the decimal numerals used in the examples. *)
Definition f0_0 : float := S754_zero false.
Definition f0_05 : float := S754_finite false 7205759403792794 (-57).
Definition f0_1 : float := S754_finite false 7205759403792794 (-56).
Definition f0_15 : float := S754_finite false 5404319552844595 (-55).
Definition f0_2 : float := S754_finite false 7205759403792794 (-55).
Definition f0_3 : float := S754_finite false 5404319552844595 (-54).
Definition f5_0 : float := S754_finite false 5629499534213120 (-50).

(** * Properties *)

(** The constants are binary64 numbers, and what [float] reads from their
    numerals. *)
Lemma constants_valid :
  forallb (valid_binary prec emax)
          [f0_0; f0_05; f0_1; f0_15; f0_2; f0_3; f5_0] = true.
Proof. reflexivity. Qed.

Lemma constants_read :
  map (fun s => py_float (py s))
      ["0.0"; "0.05"; "0.1"; "0.15"; "0.2"; "0.3"; "5.0"]%string
  = map Ok [f0_0; f0_05; f0_1; f0_15; f0_2; f0_3; f5_0].
Proof. vm_compute. reflexivity. Qed.

(** ** Comparison of floats *)

Lemma SFcompare_antisym (x y : float) :
  SFcompare y x = option_map CompOpp (SFcompare x y).
Proof.
  destruct x as [sx| sx| |sx mx ex], y as [sy| sy| |sy my ey]; simpl;
    try reflexivity;
    try (destruct sx; reflexivity);
    try (destruct sy; reflexivity);
    try (destruct sx, sy; reflexivity).
  pose proof (Pos.compare_cont_antisym mx my Eq) as Hm. simpl in Hm.
  destruct sx, sy; simpl; try reflexivity;
    rewrite (Z.compare_antisym ex ey);
    destruct (ex ?= ey)%Z; simpl; try reflexivity;
    rewrite <- Hm; rewrite ?CompOpp_involutive; reflexivity.
Qed.

Lemma ltb_irrefl (x : float) : ltb x x = false.
Proof.
  unfold ltb, SFltb.
  pose proof (SFcompare_antisym x x) as H.
  destruct (SFcompare x x) as [[ | | ]|]; simpl in H; try reflexivity.
  discriminate H.
Qed.

Lemma leb_not_ltb (x y : float) : leb x y = true -> ltb y x = false.
Proof.
  unfold leb, ltb, SFleb, SFltb. rewrite (SFcompare_antisym x y).
  destruct (SFcompare x y) as [[ | | ]|]; simpl; congruence.
Qed.

Lemma SFcompare_nan (x y : float) :
  is_nan x = false -> is_nan y = false -> SFcompare x y <> None.
Proof.
  destruct x as [sx| sx| |sx mx ex], y as [sy| sy| |sy my ey]; simpl;
    congruence.
Qed.

Lemma not_ltb_leb (x y : float) :
  is_nan x = false -> is_nan y = false -> ltb y x = false -> leb x y = true.
Proof.
  intros Hx Hy. pose proof (SFcompare_nan x y Hx Hy) as Hn.
  unfold leb, ltb, SFleb, SFltb. rewrite (SFcompare_antisym x y).
  destruct (SFcompare x y) as [[ | | ]|]; simpl; congruence.
Qed.

(** ** Slices *)

Section Slices.

Context {A : Type}.

Lemma firstn_skipn_add (n p : nat) (l : list A) :
  firstn n l ++ firstn p (skipn n l) = firstn (n + p) l.
Proof.
  revert l. induction n as [|n IH]; intros [|x l]; simpl;
    rewrite ?firstn_nil; try reflexivity.
  now rewrite IH.
Qed.

Lemma slice_app (l : list A) (a b c : nat) :
  a <= b -> b <= c -> slice l a b ++ slice l b c = slice l a c.
Proof.
  intros Hab Hbc. unfold slice.
  replace (skipn b l) with (skipn (b - a) (skipn a l))
    by (rewrite skipn_skipn; f_equal; lia).
  rewrite firstn_skipn_add. f_equal. lia.
Qed.

Lemma slice_empty (l : list A) (a : nat) : slice l a a = [].
Proof. unfold slice. now rewrite Nat.sub_diag. Qed.

Lemma slice_all (l : list A) : slice l 0 (length l) = l.
Proof. unfold slice. rewrite Nat.sub_0_r. simpl. apply firstn_all. Qed.

Lemma slice_length (l : list A) (a b : nat) :
  length (slice l a b) = Nat.min (b - a) (length l - a).
Proof. unfold slice. now rewrite length_firstn, length_skipn. Qed.

Lemma slice_nth (l : list A) (a b j : nat) (d : A) :
  j < b - a -> nth j (slice l a b) d = nth (a + j) l d.
Proof.
  intros Hj. unfold slice.
  rewrite nth_firstn.
  destruct (Nat.ltb_spec j (b - a)); [|lia].
  now rewrite nth_skipn.
Qed.

End Slices.

(** ** The boundary list *)

Lemma fold_scan_step (k : list float) (l acc : list nat) :
  fold_left (scan_step k) l acc = acc ++ filter (descent k) l.
Proof.
  revert acc. induction l as [|i l IH]; intros acc; simpl.
  - now rewrite app_nil_r.
  - rewrite IH. unfold scan_step, descent.
    destruct (ltb (item k i) (item k (i - 1))).
    + now rewrite <- app_assoc.
    + reflexivity.
Qed.

Lemma band_breaks_eq (k : list float) :
  band_breaks k = 0 :: interior k ++ [length k].
Proof. unfold band_breaks. now rewrite fold_scan_step. Qed.

Lemma in_interior (k : list float) (i : nat) :
  In i (interior k) <-> 1 <= i < length k /\ descent k i = true.
Proof.
  unfold interior, range. rewrite filter_In, in_seq.
  split; intros [H1 H2]; split; auto; lia.
Qed.

Lemma in_band_breaks (k : list float) (i : nat) :
  1 <= i < length k -> (In i (band_breaks k) <-> descent k i = true).
Proof.
  intros Hi. rewrite band_breaks_eq. simpl.
  rewrite in_app_iff, in_interior. simpl. intuition lia.
Qed.

Lemma seq_strictly_sorted (a n : nat) : StronglySorted Nat.lt (seq a n).
Proof.
  revert a. induction n as [|n IH]; intros a; simpl; constructor.
  - apply IH.
  - apply Forall_forall. intros x Hx. apply in_seq in Hx. lia.
Qed.

Lemma filter_strongly_sorted {A : Type} (R : A -> A -> Prop) (f : A -> bool)
  (l : list A) :
  StronglySorted R l -> StronglySorted R (filter f l).
Proof.
  induction 1 as [|x l Hs IH Hx]; simpl; [constructor|].
  destruct (f x); [|exact IH].
  constructor; [exact IH|].
  apply Forall_forall. intros y Hy. apply filter_In in Hy.
  rewrite Forall_forall in Hx. apply Hx, Hy.
Qed.

Lemma strongly_sorted_snoc {A : Type} (R : A -> A -> Prop) (l : list A) (y : A) :
  StronglySorted R l -> Forall (fun x => R x y) l -> StronglySorted R (l ++ [y]).
Proof.
  induction 1 as [|x l Hs IH Hx]; intros Hy; simpl.
  - repeat constructor.
  - inversion Hy as [|? ? Hxy Hly]; subst.
    constructor; [apply IH, Hly|].
    apply Forall_app; split; [exact Hx|]. repeat constructor. exact Hxy.
Qed.

Lemma band_breaks_strictly_sorted (k : list float) :
  k <> [] -> StronglySorted Nat.lt (band_breaks k).
Proof.
  intros Hk. rewrite band_breaks_eq.
  assert (Hlen : 0 < length k) by (destruct k; simpl; [congruence|lia]).
  constructor.
  - apply strongly_sorted_snoc.
    + apply filter_strongly_sorted, seq_strictly_sorted.
    + apply Forall_forall. intros x Hx. apply in_interior in Hx. lia.
  - apply Forall_app; split.
    + apply Forall_forall. intros x Hx. apply in_interior in Hx. lia.
    + repeat constructor. exact Hlen.
Qed.

Lemma band_breaks_sorted (k : list float) : StronglySorted Nat.le (band_breaks k).
Proof.
  destruct k as [|x k].
  - repeat constructor.
  - assert (H : StronglySorted Nat.lt (band_breaks (x :: k)))
      by (apply band_breaks_strictly_sorted; discriminate).
    induction H as [|a l Hs IH Ha]; constructor; [exact IH|].
    eapply Forall_impl; [|exact Ha]. intros b Hb. simpl in Hb.
    apply Nat.lt_le_incl, Hb.
Qed.

Lemma band_breaks_last (k : list float) : last (band_breaks k) 0 = length k.
Proof. unfold band_breaks. apply last_last. Qed.

Lemma band_breaks_length (k : list float) :
  length (band_breaks k) = 2 + length (interior k).
Proof. rewrite band_breaks_eq. simpl. rewrite length_app. simpl. lia. Qed.

(** ** The slicing loop *)

Lemma map_adjacent {B : Type} (f : nat -> nat -> B) (b : list nat) :
  map (fun i => f (nth i b 0) (nth (i + 1) b 0)) (range 0 (length b - 1))
  = map (fun p => f (fst p) (snd p)) (adjacent b).
Proof.
  unfold range. induction b as [|x [|y b] IH]; try reflexivity.
  change (length (x :: y :: b) - 1 - 0) with (S (length b)).
  change (adjacent (x :: y :: b)) with ((x, y) :: adjacent (y :: b)).
  cbn [seq map fst snd]. f_equal.
  rewrite <- IH.
  replace (length (y :: b) - 1 - 0) with (length b) by (simpl; lia).
  rewrite <- seq_shift, map_map. apply map_ext. intros i. reflexivity.
Qed.

Lemma segments_adjacent (k energy : list float) :
  segments k energy
  = map (fun p => (slice k (fst p) (snd p), slice energy (fst p) (snd p)))
        (adjacent (band_breaks k)).
Proof.
  unfold segments, segment_at.
  apply (map_adjacent (fun s e => (slice k s e, slice energy s e))).
Qed.

Lemma adjacent_length (b : list nat) : length (adjacent b) = length b - 1.
Proof.
  induction b as [|x [|y b] IH]; try reflexivity.
  change (adjacent (x :: y :: b)) with ((x, y) :: adjacent (y :: b)).
  simpl length in *. lia.
Qed.

Lemma last_cons {A : Type} (x d : A) (l : list A) :
  last (x :: l) d = last l x.
Proof.
  revert x d. induction l as [|c l IH]; intros x d; [reflexivity|].
  change (last (x :: c :: l) d) with (last (c :: l) d).
  now rewrite (IH c d), (IH c x).
Qed.

Lemma concat_slices {A : Type} (l : list A) (b0 : nat) (bs : list nat) :
  StronglySorted Nat.le (b0 :: bs) ->
  concat (map (fun p => slice l (fst p) (snd p)) (adjacent (b0 :: bs)))
  = slice l b0 (last bs b0).
Proof.
  revert b0. induction bs as [|b1 bs IH]; intros b0 Hs.
  - simpl. now rewrite slice_empty.
  - change (adjacent (b0 :: b1 :: bs)) with ((b0, b1) :: adjacent (b1 :: bs)).
    inversion Hs as [|? ? Hs' Hb0]; subst.
    cbn [map concat fst snd]. rewrite (IH b1 Hs').
    rewrite last_cons.
    assert (Hle : forall d, b1 <= d -> Forall (Nat.le b1) bs -> b1 <= last bs d).
    { clear. intros d Hd H. revert d Hd.
      induction H as [|c bs Hc Hbs IHb]; intros d Hd; [exact Hd|].
      rewrite last_cons. apply IHb, Hc. }
    apply slice_app.
    + inversion Hb0; subst; assumption.
    + apply Hle; [lia|]. inversion Hs'; subst; assumption.
Qed.

Lemma segments_concat (k energy : list float) :
  concat (map fst (segments k energy)) = k
  /\ concat (map snd (segments k energy)) = firstn (length k) energy.
Proof.
  rewrite segments_adjacent. rewrite !map_map. cbn [fst snd].
  pose proof (band_breaks_sorted k) as Hs.
  pose proof (band_breaks_last k) as Hl.
  rewrite band_breaks_eq in *.
  split.
  - rewrite (concat_slices k _ _ Hs).
    rewrite last_last. apply slice_all.
  - rewrite (concat_slices energy _ _ Hs). rewrite last_last.
    unfold slice. now rewrite Nat.sub_0_r.
Qed.

Lemma combine_skipn {A B : Type} (l : list A) (l' : list B) (n : nat) :
  skipn n (combine l l') = combine (skipn n l) (skipn n l').
Proof.
  revert l l'. induction n as [|n IH]; intros [|x l] [|y l']; simpl;
    try reflexivity.
  - now destruct (skipn n l).
  - apply IH.
Qed.

Lemma combine_slice {A B : Type} (l : list A) (l' : list B) (s e : nat) :
  combine (slice l s e) (slice l' s e) = slice (combine l l') s e.
Proof. unfold slice. now rewrite combine_skipn, combine_firstn. Qed.

Lemma combine_columns (data : list (float * float)) :
  combine (column0 data) (column1 data) = data.
Proof.
  unfold column0, column1.
  induction data as [|[k e] data IH]; simpl; [reflexivity|now rewrite IH].
Qed.

Lemma segments_samples (data : list (float * float)) :
  concat (map (fun seg => combine (fst seg) (snd seg))
              (segments (column0 data) (column1 data))) = data.
Proof.
  rewrite segments_adjacent, map_map. cbn [fst snd].
  rewrite (map_ext _ (fun p => slice (combine (column0 data) (column1 data))
                                     (fst p) (snd p)))
    by (intros p; apply combine_slice).
  pose proof (band_breaks_sorted (column0 data)) as Hs.
  rewrite band_breaks_eq in *.
  rewrite (concat_slices _ _ _ Hs), last_last, combine_columns.
  unfold column0. rewrite length_map. apply slice_all.
Qed.

(** ** Consecutive boundaries *)

Lemma adjacent_in (b : list nat) (s e : nat) :
  In (s, e) (adjacent b) -> In s b /\ In e b.
Proof.
  induction b as [|x [|y b] IH]; try (simpl; tauto).
  change (adjacent (x :: y :: b)) with ((x, y) :: adjacent (y :: b)).
  intros [H|H].
  - inversion H; subst. simpl. auto.
  - destruct (IH H) as [Hs He]. split; right; assumption.
Qed.

Lemma adjacent_lt (b : list nat) (s e : nat) :
  StronglySorted Nat.lt b -> In (s, e) (adjacent b) -> s < e.
Proof.
  induction 1 as [|x b Hs IH Hx]; [simpl; tauto|].
  destruct b as [|y b]; [simpl; tauto|].
  change (adjacent (x :: y :: b)) with ((x, y) :: adjacent (y :: b)).
  intros [H|H].
  - inversion H; subst. inversion Hx; subst. assumption.
  - apply IH, H.
Qed.

Lemma adjacent_gap (b : list nat) (s e x : nat) :
  StronglySorted Nat.lt b -> In (s, e) (adjacent b) -> s < x < e -> ~ In x b.
Proof.
  induction 1 as [|x0 b Hs IH Hx0]; [simpl; tauto|].
  destruct b as [|y b]; [simpl; tauto|].
  change (adjacent (x0 :: y :: b)) with ((x0, y) :: adjacent (y :: b)).
  rewrite Forall_forall in Hx0.
  intros [H|H] Hx Hin.
  - inversion H; subst.
    destruct Hin as [Hin|[Hin|Hin]]; try lia.
    inversion Hs as [|? ? _ Hy]; subst. rewrite Forall_forall in Hy.
    specialize (Hy x Hin). unfold Nat.lt in Hy. lia.
  - destruct Hin as [Hin|Hin].
    + subst x0. destruct (adjacent_in _ _ _ H) as [Hsb _].
      specialize (Hx0 s Hsb). unfold Nat.lt in Hx0. lia.
    + exact (IH H Hx Hin).
Qed.

Lemma band_breaks_bound (k : list float) (i : nat) :
  In i (band_breaks k) -> i <= length k.
Proof.
  rewrite band_breaks_eq. simpl. rewrite in_app_iff, in_interior. simpl.
  intuition lia.
Qed.

(** ** Counting the descents *)

Lemma descent_cons (a : float) (k : list float) (i : nat) :
  1 <= i -> descent (a :: k) (S i) = descent k i.
Proof.
  intros Hi. unfold descent, item.
  destruct i as [|i]; [lia|]. simpl. now rewrite Nat.sub_0_r.
Qed.

Lemma interior_length (k : list float) : length (interior k) = descents k.
Proof.
  unfold interior, range.
  induction k as [|a [|b k] IH]; try reflexivity.
  change (length (a :: b :: k) - 1) with (S (length k)).
  change (descents (a :: b :: k))
    with ((if ltb b a then 1 else 0) + descents (b :: k)).
  rewrite <- IH. cbn [seq filter].
  replace (descent (a :: b :: k) 1) with (ltb b a) by reflexivity.
  replace (length (b :: k) - 1) with (length k) by (simpl; lia).
  assert (Hshift : length (filter (descent (a :: b :: k)) (seq 2 (length k)))
                   = length (filter (descent (b :: k)) (seq 1 (length k)))).
  { rewrite <- (seq_shift (length k) 1), filter_map_swap, length_map.
    f_equal. apply filter_ext_in. intros i Hi. apply in_seq in Hi.
    apply descent_cons. lia. }
  destruct (ltb b a); simpl; rewrite Hshift; reflexivity.
Qed.

(** ** The drawing loops *)

Lemma improved_draw_fold (fermi : float) (k energy : list float)
  (breaks l : list nat) (ax : axes) :
  fold_left (PlotBandsImproved.improved_step fermi k energy breaks) l ax
  = ax ++ filter drawable
            (map (PlotBandsImproved.improved_segment fermi k energy breaks) l).
Proof.
  revert ax. induction l as [|i l IH]; intros ax; simpl.
  - now rewrite app_nil_r.
  - rewrite IH. unfold PlotBandsImproved.improved_step, drawable, plot.
    destruct (PlotBandsImproved.improved_segment fermi k energy breaks i) as [ks es].
    simpl. destruct (1 <? length ks).
    + now rewrite <- app_assoc.
    + reflexivity.
Qed.

Lemma spin_draw_fold (k energy : list float) (breaks l : list nat) (ax : axes) :
  fold_left (PlotSpinResolvedBands.spin_step k energy breaks) l ax
  = ax ++ filter drawable (map (segment_at k energy breaks) l).
Proof.
  revert ax. induction l as [|i l IH]; intros ax; simpl.
  - now rewrite app_nil_r.
  - rewrite IH. unfold PlotSpinResolvedBands.spin_step, drawable, plot.
    destruct (segment_at k energy breaks i) as [ks es].
    simpl. destruct (1 <? length ks).
    + now rewrite <- app_assoc.
    + reflexivity.
Qed.

Lemma improved_segments_shift (fermi : float) (data : list (float * float)) :
  PlotBandsImproved.improved_segments fermi data
  = map (fun seg => (fst seg, shift fermi (snd seg)))
        (segments (column0 data) (column1 data)).
Proof.
  unfold PlotBandsImproved.improved_segments, segments. rewrite map_map.
  apply map_ext. intros i. reflexivity.
Qed.

Lemma interior_constant (x : float) (n : nat) : interior (repeat x n) = [].
Proof.
  unfold interior, range. rewrite repeat_length.
  rewrite (filter_ext_in (descent (repeat x n)) (fun _ => false)).
  - apply filter_false.
  - intros i Hi. apply in_seq in Hi. unfold descent, item.
    rewrite !nth_repeat_lt by lia. apply ltb_irrefl.
Qed.

Lemma segments_two_breaks (k energy : list float) :
  interior k = [] -> segments k energy = [(k, firstn (length k) energy)].
Proof.
  intros Hi. rewrite segments_adjacent, band_breaks_eq, Hi. simpl.
  rewrite slice_all. unfold slice. now rewrite Nat.sub_0_r.
Qed.

(** * The band segmenter *)

(** C1.  Concatenating the segments in the order they are produced gives
    back the input: the k-coordinates, the energies, and the samples
    themselves.  In [plot_bands_improved] the energies of a segment are
    shifted by the Fermi energy when it is sliced, in
    [plot_spin_resolved_bands] before; both give back the k-coordinates and
    the shifted energies. *)
Theorem segments_lossless_partition :
  forall (fermi : float) (data : list (float * float)),
    let k_coord := column0 data in
    let energy := column1 data in
    (concat (map fst (segments k_coord energy)) = k_coord
     /\ concat (map snd (segments k_coord energy)) = energy
     /\ concat (map (fun seg => combine (fst seg) (snd seg))
                    (segments k_coord energy)) = data)
    /\ (concat (map fst (PlotBandsImproved.improved_segments fermi data)) = k_coord
        /\ concat (map snd (PlotBandsImproved.improved_segments fermi data))
           = shift fermi energy)
    /\ (concat (map fst (PlotSpinResolvedBands.spin_segments fermi data)) = k_coord
        /\ concat (map snd (PlotSpinResolvedBands.spin_segments fermi data))
           = shift fermi energy).
Proof.
  intros fermi data k_coord energy.
  assert (Hlen : length energy = length k_coord)
    by (unfold energy, k_coord, column0, column1; now rewrite !length_map).
  destruct (segments_concat k_coord energy) as [Hk He].
  rewrite <- Hlen, firstn_all in He.
  repeat split.
  - exact Hk.
  - exact He.
  - apply segments_samples.
  - rewrite improved_segments_shift, map_map. cbn [fst]. exact Hk.
  - rewrite improved_segments_shift, map_map. cbn [snd].
    fold k_coord energy. rewrite <- (map_map snd (shift fermi)).
    unfold shift at 1. rewrite <- concat_map, He. reflexivity.
  - unfold PlotSpinResolvedBands.spin_segments.
    apply (segments_concat k_coord (shift fermi energy)).
  - unfold PlotSpinResolvedBands.spin_segments. fold k_coord energy.
    destruct (segments_concat k_coord (shift fermi energy)) as [_ Hs].
    rewrite Hs. apply firstn_all2. unfold shift. rewrite length_map. lia.
Qed.

(** C2.  Inside the input, index [i] is a boundary exactly when
    [k[i] < k[i-1]] holds for the comparison of floats; where
    [k[i-1] <= k[i]] there is no boundary; and a constant sequence has the
    two boundaries [0] and [N] only, hence one segment, itself. *)
Theorem boundary_iff_strict_descent :
  forall (k : list float),
    (forall i, 1 <= i < length k ->
       (In i (band_breaks k) <-> ltb (item k i) (item k (i - 1)) = true))
    /\ (forall i, 1 <= i < length k ->
          leb (item k (i - 1)) (item k i) = true -> ~ In i (band_breaks k))
    /\ (forall x n, k = repeat x n ->
          band_breaks k = [0; n] /\ k_segments k = [k]).
Proof.
  intros k. split; [|split].
  - intros i Hi. apply in_band_breaks, Hi.
  - intros i Hi Hle Hin. apply in_band_breaks in Hin; [|exact Hi].
    unfold descent in Hin. rewrite (leb_not_ltb _ _ Hle) in Hin. discriminate.
  - intros x n ->. split.
    + rewrite band_breaks_eq, interior_constant, repeat_length. reflexivity.
    + unfold k_segments.
      rewrite segments_two_breaks by apply interior_constant. reflexivity.
Qed.

Lemma boundary_iff_strict_descent_witness :
  let k := [f0_0; f0_1; f0_05] in
  (1 <= 2 < length k /\ In 2 (band_breaks k))
  /\ (1 <= 1 < length k /\ leb (item k 0) (item k 1) = true
      /\ ~ In 1 (band_breaks k))
  /\ band_breaks (repeat f0_1 3) = [0; 3].
Proof.
  intros k.
  destruct (boundary_iff_strict_descent k) as (H1 & H2 & _).
  destruct (boundary_iff_strict_descent (repeat f0_1 3)) as (_ & _ & H3).
  assert (Hi2 : 1 <= 2 < length k) by (simpl; lia).
  assert (Hi1 : 1 <= 1 < length k) by (simpl; lia).
  split; [|split].
  - split; [exact Hi2|]. apply (H1 2 Hi2). reflexivity.
  - split; [exact Hi1|]. split; [reflexivity|].
    apply (H2 1 Hi1). reflexivity.
  - apply (H3 f0_1 3 eq_refl).
Defined.

Lemma segment_no_descent (k seg : list float) (j : nat) :
  In seg (k_segments k) -> S j < length seg ->
  ltb (nth (S j) seg nan) (nth j seg nan) = false.
Proof.
  unfold k_segments. rewrite segments_adjacent, map_map. cbn [fst].
  intros Hin Hj. apply in_map_iff in Hin. destruct Hin as [[s e] [Hseg Hp]].
  cbn [fst snd] in Hseg. subst seg.
  rewrite slice_length in Hj.
  assert (Hk : k <> []) by (intros ->; simpl in Hj; lia).
  pose proof (band_breaks_strictly_sorted k Hk) as Hs.
  rewrite !slice_nth by lia.
  assert (Hgap : ~ In (s + S j) (band_breaks k))
    by (apply (adjacent_gap _ s e _ Hs Hp); lia).
  assert (Hi : 1 <= s + S j < length k) by lia.
  pose proof (in_band_breaks k _ Hi) as Hiff. unfold descent, item in Hiff.
  replace (s + S j - 1) with (s + j) in Hiff by lia.
  destruct (ltb (nth (s + S j) k nan) (nth (s + j) k nan)); [|reflexivity].
  exfalso. apply Hgap, Hiff. reflexivity.
Qed.

(** C3, as the code has it.  Inside a segment no k-coordinate is smaller
    than the one before it; when neither of two consecutive k-coordinates
    is NaN, this is [k[j] <= k[j+1]]. *)
Theorem segment_never_decreases :
  forall (k seg : list float) (j : nat),
    In seg (k_segments k) -> S j < length seg ->
    ltb (nth (S j) seg nan) (nth j seg nan) = false
    /\ (is_nan (nth j seg nan) = false ->
        is_nan (nth (S j) seg nan) = false ->
        leb (nth j seg nan) (nth (S j) seg nan) = true).
Proof.
  intros k seg j Hin Hj.
  pose proof (segment_no_descent k seg j Hin Hj) as Hlt.
  split; [exact Hlt|]. intros Hn1 Hn2. now apply not_ltb_leb.
Qed.

Lemma segment_never_decreases_witness :
  let k := [f0_0; f0_1; f0_05] in
  let seg := [f0_0; f0_1] in
  In seg (k_segments k) /\ 1 < length seg
  /\ ltb (nth 1 seg nan) (nth 0 seg nan) = false
  /\ leb (nth 0 seg nan) (nth 1 seg nan) = true.
Proof.
  intros k seg.
  assert (Hin : In seg (k_segments k)) by (vm_compute; left; reflexivity).
  assert (Hj : 1 < length seg) by (simpl; lia).
  destruct (segment_never_decreases k seg 0 Hin Hj) as [H1 H2].
  split; [exact Hin|]. split; [exact Hj|]. split; [exact H1|].
  apply H2; reflexivity.
Defined.

(** C3, as stated, fails on a k-sequence that holds a NaN: [0.0, nan] is
    one segment, and [0.0 <= nan] is false. *)
Lemma segment_with_nan_not_nondecreasing :
  In [f0_0; nan] (k_segments [f0_0; nan])
  /\ 1 < length [f0_0; nan]
  /\ leb (nth 0 [f0_0; nan] nan) (nth 1 [f0_0; nan] nan) = false.
Proof.
  split; [vm_compute; left; reflexivity|].
  split; [simpl; lia|reflexivity].
Qed.

(** C5.  Running the segmenter on the concatenation of its own segments
    gives the same boundaries and the same segments. *)
Theorem segmenter_idempotent :
  forall (data : list (float * float)),
    let segs := segments (column0 data) (column1 data) in
    band_breaks (concat (map fst segs)) = band_breaks (column0 data)
    /\ segments (concat (map fst segs)) (concat (map snd segs)) = segs.
Proof.
  intros data segs.
  destruct (segments_concat (column0 data) (column1 data)) as [Hk He].
  fold segs in Hk, He.
  replace (length (column0 data)) with (length (column1 data)) in He
    by (unfold column0, column1; now rewrite !length_map).
  rewrite firstn_all in He. rewrite Hk, He. split; reflexivity.
Qed.

(** C6.  The numerals 0.0, 0.1, 0.2, 0.05, 0.15, 0.3 read as floats give the
    boundaries 0, 3, 6 and the two segments [0.0, 0.1, 0.2] and
    [0.05, 0.15, 0.3]. *)
Theorem segments_of_example :
  let k := [f0_0; f0_1; f0_2; f0_05; f0_15; f0_3] in
  map (fun s => py_float (py s)) ["0.0"; "0.1"; "0.2"; "0.05"; "0.15"; "0.3"]%string
    = map Ok k
  /\ band_breaks k = [0; 3; 6]
  /\ k_segments k = [[f0_0; f0_1; f0_2]; [f0_05; f0_15; f0_3]].
Proof. vm_compute. repeat split. Qed.

(** C7.  The loops slice every pair of consecutive boundaries, one-sample
    segments included, and [plot] is called on exactly the segments of more
    than one sample, in order. *)
Theorem single_samples_emitted_not_drawn :
  forall (fermi : float) (data : list (float * float)),
    (PlotBandsImproved.plot_bands_improved fermi data
       = filter drawable (PlotBandsImproved.improved_segments fermi data)
     /\ PlotSpinResolvedBands.plot_spin_resolved_bands fermi data
       = filter drawable (PlotSpinResolvedBands.spin_segments fermi data))
    /\ (forall seg,
          In seg (PlotBandsImproved.plot_bands_improved fermi data)
          <-> In seg (PlotBandsImproved.improved_segments fermi data)
              /\ 1 < length (fst seg))
    /\ (forall seg,
          In seg (PlotSpinResolvedBands.plot_spin_resolved_bands fermi data)
          <-> In seg (PlotSpinResolvedBands.spin_segments fermi data)
              /\ 1 < length (fst seg))
    /\ (forall x e,
          PlotBandsImproved.improved_segments fermi [(x, e)] = [([x], [sub e fermi])]
          /\ PlotBandsImproved.plot_bands_improved fermi [(x, e)] = []
          /\ PlotSpinResolvedBands.spin_segments fermi [(x, e)] = [([x], [sub e fermi])]
          /\ PlotSpinResolvedBands.plot_spin_resolved_bands fermi [(x, e)] = [])
    /\ (forall e1 e2 e3,
          PlotBandsImproved.improved_segments fermi
            [(f0_2, e1); (f0_1, e2); (f0_3, e3)]
          = [([f0_2], [sub e1 fermi]);
             ([f0_1; f0_3], [sub e2 fermi; sub e3 fermi])]
          /\ PlotBandsImproved.plot_bands_improved fermi
               [(f0_2, e1); (f0_1, e2); (f0_3, e3)]
             = [([f0_1; f0_3], [sub e2 fermi; sub e3 fermi])]).
Proof.
  intros fermi data.
  assert (H1 : PlotBandsImproved.plot_bands_improved fermi data
               = filter drawable (PlotBandsImproved.improved_segments fermi data))
    by apply improved_draw_fold.
  assert (H2 : PlotSpinResolvedBands.plot_spin_resolved_bands fermi data
               = filter drawable (PlotSpinResolvedBands.spin_segments fermi data))
    by apply spin_draw_fold.
  split; [split; assumption|].
  split; [|split; [|split]].
  - intros seg. rewrite H1, filter_In. unfold drawable.
    now rewrite Nat.ltb_lt.
  - intros seg. rewrite H2, filter_In. unfold drawable.
    now rewrite Nat.ltb_lt.
  - intros x e. repeat split.
  - intros e1 e2 e3. split; reflexivity.
Qed.

(** C9.  On a non-empty input the boundary list starts with 0, ends with
    the number of samples and is strictly increasing; there is one segment
    more than there are indices [i], [1 <= i < N], with [k[i] < k[i-1]]
    (as many as there are places where a k-coordinate is smaller than the
    one before it), and no segment is empty. *)
Theorem band_breaks_shape :
  forall (k energy : list float),
    k <> [] ->
    hd_error (band_breaks k) = Some 0
    /\ last (band_breaks k) 0 = length k
    /\ StronglySorted Nat.lt (band_breaks k)
    /\ length (segments k energy) = 1 + length (interior k)
    /\ length (interior k) = descents k
    /\ Forall (fun seg => fst seg <> []) (segments k energy).
Proof.
  intros k energy Hk.
  pose proof (band_breaks_strictly_sorted k Hk) as Hs.
  split; [now rewrite band_breaks_eq|].
  split; [apply band_breaks_last|].
  split; [exact Hs|].
  split; [|split].
  - rewrite segments_adjacent, length_map, adjacent_length,
      band_breaks_length. lia.
  - apply interior_length.
  - rewrite segments_adjacent. apply Forall_forall. intros seg Hin.
    apply in_map_iff in Hin. destruct Hin as [[s e] [Hseg Hp]]. subst seg.
    cbn [fst snd].
    pose proof (adjacent_lt _ _ _ Hs Hp) as Hlt.
    destruct (adjacent_in _ _ _ Hp) as [_ He].
    apply band_breaks_bound in He.
    intros Hnil. apply (f_equal (@length float)) in Hnil.
    rewrite slice_length in Hnil. simpl in Hnil. lia.
Qed.

Lemma band_breaks_shape_witness :
  let k := [f0_0; f0_1; f0_05] in
  k <> []
  /\ band_breaks k = [0; 2; 3]
  /\ length (segments k [f0_0; f0_0; f0_0]) = 2
  /\ descents k = 1.
Proof.
  intros k.
  assert (Hk : k <> []) by discriminate.
  destruct (band_breaks_shape k [f0_0; f0_0; f0_0] Hk)
    as (_ & _ & _ & Hn & Hd & _).
  split; [exact Hk|]. split; [reflexivity|]. split; [exact Hn|].
  rewrite <- Hd. reflexivity.
Defined.

(** * The readers *)

(** ** [read_bands_data] *)

Lemma fold_collect_step (lines acc : list str) :
  fold_left collect_step lines acc
  = acc ++ filter (fun line => negb (PyStr.eqb line [])
                               && negb (startswith (py "#") line))
                  (map strip lines).
Proof.
  revert acc. induction lines as [|line lines IH]; intros acc;
    cbn [fold_left map filter].
  - now rewrite app_nil_r.
  - rewrite IH. unfold collect_step.
    destruct (negb (PyStr.eqb (strip line) [])
              && negb (startswith (py "#") (strip line))).
    + now rewrite <- app_assoc.
    + reflexivity.
Qed.

Lemma fold_parse_step_raise (data_lines : list str) (e : exn) :
  fold_left parse_step data_lines (Raise e) = Raise e.
Proof.
  induction data_lines as [|line l IH]; cbn [fold_left]; [reflexivity|exact IH].
Qed.

Lemma fold_parse_step (data_lines : list str) (acc : list (list float)) :
  fold_left parse_step data_lines (Ok acc)
  = (rows <- comprehension row_of
               (filter (fun line => 2 <=? length (split_ws line)) data_lines) ;;
     Ok (acc ++ rows)).
Proof.
  revert acc. induction data_lines as [|line l IH]; intros acc;
    cbn [fold_left filter].
  - cbn. now rewrite app_nil_r.
  - unfold parse_step at 2. cbn [bind].
    destruct (2 <=? length (split_ws line)); cbn [comprehension bind].
    + unfold row_of at 1.
      destruct (comprehension py_float (split_ws line)) as [row|e];
        cbn [bind].
      * rewrite IH.
        destruct (comprehension row_of _) as [rows|e]; cbn [bind];
          [|reflexivity].
        now rewrite <- app_assoc.
      * apply fold_parse_step_raise.
    + apply IH.
Qed.

Lemma filter_filter {A : Type} (f g : A -> bool) (l : list A) :
  filter g (filter f l) = filter (fun x => f x && g x) l.
Proof.
  induction l as [|x l IH]; simpl; [reflexivity|].
  destruct (f x); simpl; [destruct (g x)|]; now rewrite IH.
Qed.

Lemma read_bands_data_retained {ndarray : Type}
  (np_array : list (list float) -> result ndarray) (lines : list str) :
  read_bands_data ndarray np_array lines = retained_rows np_array lines.
Proof.
  unfold read_bands_data, retained_rows.
  rewrite fold_collect_step, fold_parse_step. simpl app.
  rewrite filter_filter. fold retained.
  destruct (comprehension row_of _); reflexivity.
Qed.

Lemma comprehension_Forall2 {A B : Type} (f : A -> result B) (xs : list A)
  (ys : list B) :
  Forall2 (fun x y => f x = Ok y) xs ys -> comprehension f xs = Ok ys.
Proof.
  induction 1 as [|x y xs ys Hxy _ IH]; cbn [comprehension]; [reflexivity|].
  rewrite Hxy. cbn [bind]. rewrite IH. reflexivity.
Qed.

Lemma comprehension_Ok {A B : Type} (f : A -> result B) (xs : list A)
  (ys : list B) :
  comprehension f xs = Ok ys -> Forall2 (fun x y => f x = Ok y) xs ys.
Proof.
  revert ys. induction xs as [|x xs IH]; intros ys; cbn [comprehension].
  - intros H. injection H as <-. constructor.
  - destruct (f x) as [y|e] eqn:Hx; cbn [bind]; [|discriminate].
    destruct (comprehension f xs) as [ys'|e]; cbn [bind]; [|discriminate].
    intros H. injection H as <-. constructor; [exact Hx|]. now apply IH.
Qed.

Lemma rows_of_lines_comprehension (lines : list str) (rows : list (list float)) :
  comprehension row_of lines = Ok rows -> rows_of_lines lines rows.
Proof.
  intros H. apply comprehension_Ok in H. unfold rows_of_lines.
  eapply Forall2_impl; [|exact H].
  intros line row Hrow. apply comprehension_Ok, Hrow.
Qed.

(** C10.  [read_bands_data] builds its array from the rows of exactly the
    lines that, once stripped, are not blank, do not start with [#] and
    have at least two fields, in file order, every field converted by
    [float]; a line that fails one of these tests is passed over without
    an exception, whatever it holds. *)
Theorem read_bands_data_keeps_data_lines :
  forall (ndarray : Type) (np_array : list (list float) -> result ndarray),
    (forall lines,
       read_bands_data ndarray np_array lines = retained_rows np_array lines)
    /\ (forall lines rows,
          rows_of_lines (filter retained (map strip lines)) rows ->
          read_bands_data ndarray np_array lines = np_array rows)
    /\ (forall before_lines line after_lines,
          retained (strip line) = false ->
          read_bands_data ndarray np_array (before_lines ++ line :: after_lines)
          = read_bands_data ndarray np_array (before_lines ++ after_lines)).
Proof.
  intros ndarray np_array. split; [|split].
  - apply read_bands_data_retained.
  - intros lines rows Hrows. rewrite read_bands_data_retained.
    unfold retained_rows.
    rewrite (comprehension_Forall2 row_of _ rows); [reflexivity|].
    eapply Forall2_impl; [|exact Hrows].
    intros line row Hrow. apply comprehension_Forall2, Hrow.
  - intros l1 line l2 Hline. rewrite !read_bands_data_retained.
    unfold retained_rows. rewrite !map_app, !filter_app. simpl.
    now rewrite Hline.
Qed.

Lemma read_bands_data_keeps_data_lines_witness :
  let np_array := @Ok (list (list float)) in
  let before_lines := [py "# k  E"; py "0.0 0.1"] in
  let after_lines := [py ""; py "  0.05   0.3  "] in
  let lines := before_lines ++ py "garbage" :: after_lines in
  let rows := [[f0_0; f0_1]; [f0_05; f0_3]] in
  retained (strip (py "garbage")) = false
  /\ rows_of_lines (filter retained (map strip lines)) rows
  /\ read_bands_data _ np_array lines
     = read_bands_data _ np_array (before_lines ++ after_lines)
  /\ read_bands_data _ np_array lines = Ok rows.
Proof.
  intros np_array before_lines after_lines lines rows.
  destruct (read_bands_data_keeps_data_lines _ np_array) as (_ & Hrows & Hskip).
  assert (Hr : rows_of_lines (filter retained (map strip lines)) rows)
    by (apply rows_of_lines_comprehension; vm_compute; reflexivity).
  split; [reflexivity|]. split; [exact Hr|]. split.
  - apply Hskip. reflexivity.
  - apply (Hrows lines rows Hr).
Defined.

(** C4.  A bands file without data rows does not reach the segmenter.  In
    [plot_bands_improved] the loaded array is one-dimensional (also for a
    file of one row) and [data[:, 0]] raises [IndexError]; in
    [plot_spin_resolved_bands] no line of the file is retained, the read
    does not raise, [np.array([])] is one-dimensional and [data[:, 0]]
    raises [IndexError] as well. *)
Theorem empty_bands_file_raises :
  (forall fermi values,
     Scripts.improved_from_array fermi (Array1 values) = Raise IndexError)
  /\ (forall np_array fermi fixed original,
        np_array [] = Ok (Array1 []) ->
        Forall (fun line => retained (strip line) = false) fixed ->
        Scripts.spin_resolved_from_lines np_array fermi fixed original
        = Raise IndexError).
Proof.
  split; [reflexivity|].
  intros np_array fermi fixed original Hnp Hlines.
  unfold Scripts.spin_resolved_from_lines, Scripts.load_bands.
  rewrite read_bands_data_retained. unfold retained_rows.
  assert (Hnone : filter retained (map strip fixed) = []).
  { induction Hlines as [|line lines Hline _ IH]; [reflexivity|].
    cbn [map filter]. now rewrite Hline. }
  rewrite Hnone. cbn [comprehension bind]. rewrite Hnp. reflexivity.
Qed.

Lemma empty_bands_file_raises_witness :
  let np_array := fun rows : list (list float) =>
                    match rows with
                    | [] => Ok (Array1 [])
                    | row :: _ => Ok (Array2 (length row) rows)
                    end in
  let fixed := [py "# k-path   E (eV)"; py ""; py "   "] in
  let original := [py "0.0 0.1"; py "0.05 0.3"] in
  np_array [] = Ok (Array1 [])
  /\ Forall (fun line => retained (strip line) = false) fixed
  /\ Scripts.spin_resolved_from_lines np_array f5_0 fixed original
     = Raise IndexError.
Proof.
  intros np_array fixed original.
  assert (Hnp : np_array [] = Ok (Array1 [])) by reflexivity.
  assert (Hlines : Forall (fun line => retained (strip line) = false) fixed)
    by (repeat constructor).
  split; [exact Hnp|]. split; [exact Hlines|].
  exact (proj2 empty_bands_file_raises np_array f5_0 fixed original
               Hnp Hlines).
Defined.

(** ** [read_dos_fermi] *)

Lemma split_from_skip (sep : str) (skip : nat) (piece s : str) :
  split_from sep skip piece s = split_from sep 0 piece (skipn skip s).
Proof.
  revert skip. induction s as [|c s IH]; intros [|n]; try reflexivity.
  cbn [split_from skipn]. apply IH.
Qed.

Lemma split_from_find (sep : str) (piece s : str) :
  sep <> [] ->
  split_from sep 0 piece s
  = match find sep s with
    | None => [piece ++ s]
    | Some n =>
        (piece ++ firstn n s)
          :: split_from sep 0 [] (skipn (n + length sep) s)
    end.
Proof.
  intros Hsep. destruct sep as [|a sep]; [congruence|]. clear Hsep.
  revert piece. induction s as [|c s IH]; intros piece.
  - cbn. now rewrite app_nil_r.
  - cbn [split_from find].
    destruct (startswith (a :: sep) (c :: s)) eqn:Hst.
    + rewrite split_from_skip. cbn [firstn]. rewrite app_nil_r.
      cbn [length Nat.add Nat.sub skipn]. now rewrite Nat.sub_0_r.
    + rewrite IH. destruct (find (a :: sep) s) as [n|]; cbn [option_map].
      * cbn [firstn Nat.add skipn]. now rewrite <- app_assoc.
      * now rewrite <- app_assoc.
Qed.

Lemma split_find (sep s : str) :
  sep <> [] ->
  split sep s
  = match find sep s with
    | None => [s]
    | Some n => firstn n s :: split sep (skipn (n + length sep) s)
    end.
Proof. intros Hsep. unfold split. now rewrite split_from_find. Qed.

Lemma split_head (sep s : str) :
  sep <> [] -> getitem (split sep s) 0 = Ok (before sep s).
Proof.
  intros Hsep. rewrite split_find by exact Hsep. unfold before.
  destruct (find sep s); reflexivity.
Qed.

Lemma split_second (sep s : str) :
  sep <> [] ->
  getitem (split sep s) 1
  = match find sep s with
    | None => Raise IndexError
    | Some n => Ok (before sep (skipn (n + length sep) s))
    end.
Proof.
  intros Hsep. rewrite split_find by exact Hsep.
  destruct (find sep s) as [n|]; [|reflexivity].
  change (getitem (firstn n s :: split sep (skipn (n + length sep) s)) 1)
    with (getitem (split sep (skipn (n + length sep) s)) 0).
  now apply split_head.
Qed.

(** C8, as the code has it.  Without [EFermi =] in the header the reader
    raises [IndexError].  With it, the reader takes the text that follows
    the first [EFermi =], up to the next [EFermi =] if there is one, cuts
    it at the first [eV] if there is one, strips it and applies [float] to
    it: the value when that text is a numeral, [ValueError] otherwise.  The
    marker [eV] is not required. *)
Theorem read_dos_fermi_between_markers :
  forall (header : str),
    (find (py "EFermi =") header = None ->
     read_dos_fermi header = Raise IndexError)
    /\ (forall n, find (py "EFermi =") header = Some n ->
          read_dos_fermi header
          = py_float (strip (before (py "eV")
                               (before (py "EFermi =")
                                  (skipn (n + 8) header))))).
Proof.
  intros header. unfold read_dos_fermi.
  rewrite split_second by discriminate.
  split.
  - intros ->. reflexivity.
  - intros n ->. cbn [bind]. rewrite split_head by discriminate.
    reflexivity.
Qed.

Lemma read_dos_fermi_between_markers_witness :
  let plain := py "# no marker here" in
  let header := py "#  E (eV)   dos(E)  Int dos(E) EFermi =    5.0 eV" in
  let words := py "EFermi = five eV" in
  (find (py "EFermi =") plain = None
   /\ read_dos_fermi plain = Raise IndexError)
  /\ (find (py "EFermi =") header = Some 31
      /\ read_dos_fermi header = Ok f5_0)
  /\ (find (py "EFermi =") words = Some 0
      /\ read_dos_fermi words = Raise ValueError).
Proof.
  intros plain header words.
  split; [|split]; (split; [reflexivity|]).
  - apply (read_dos_fermi_between_markers plain). reflexivity.
  - rewrite (proj2 (read_dos_fermi_between_markers header) 31 eq_refl).
    reflexivity.
  - rewrite (proj2 (read_dos_fermi_between_markers words) 0 eq_refl).
    reflexivity.
Defined.

(** C8, as stated, fails on a header that has the value but not the unit:
    the reader returns the value. *)
Lemma read_dos_fermi_without_unit :
  find (py "eV") (py "EFermi = 5.0") = None
  /\ read_dos_fermi (py "EFermi = 5.0") = Ok f5_0.
Proof. split; reflexivity. Qed.

(** * Further properties of the drawing loops *)

Lemma shift_slice (fermi : float) (a : list float) (s e : nat) :
  shift fermi (slice a s e) = slice (shift fermi a) s e.
Proof. unfold shift, slice. now rewrite skipn_map, firstn_map. Qed.

Lemma improved_segments_spin (fermi : float) (data : list (float * float)) :
  PlotBandsImproved.improved_segments fermi data
  = PlotSpinResolvedBands.spin_segments fermi data.
Proof.
  rewrite improved_segments_shift. unfold PlotSpinResolvedBands.spin_segments.
  rewrite !segments_adjacent, map_map. apply map_ext. intros [s e].
  cbn [fst snd]. now rewrite shift_slice.
Qed.

Lemma improved_lines (fermi : float) (data : list (float * float)) :
  PlotBandsImproved.plot_bands_improved fermi data
  = filter drawable (PlotBandsImproved.improved_segments fermi data).
Proof. apply improved_draw_fold. Qed.

Lemma spin_lines (fermi : float) (data : list (float * float)) :
  PlotSpinResolvedBands.plot_spin_resolved_bands fermi data
  = filter drawable (PlotSpinResolvedBands.spin_segments fermi data).
Proof. apply spin_draw_fold. Qed.

(** X1.  The two scripts draw the same band lines from the same data:
    subtracting the Fermi energy from each slice ([plot_bands_improved])
    and slicing the already shifted energies ([plot_spin_resolved_bands],
    left panel) give the same segments and the same [plot] calls. *)
Theorem improved_and_spin_resolved_agree :
  forall (fermi : float) (data : list (float * float)),
    PlotBandsImproved.improved_segments fermi data
    = PlotSpinResolvedBands.spin_segments fermi data
    /\ PlotBandsImproved.plot_bands_improved fermi data
       = PlotSpinResolvedBands.plot_spin_resolved_bands fermi data.
Proof.
  intros fermi data. split; [apply improved_segments_spin|].
  now rewrite improved_lines, spin_lines, improved_segments_spin.
Qed.

Lemma zoom_fold (k energy : list float) (breaks l : list nat) (ax : axes) :
  fold_left (PlotSpinResolvedZoom.zoom_step k energy breaks) l ax
  = ax ++ filter (fun seg => drawable seg
                             && PlotSpinResolvedZoom.near_fermi (snd seg))
                 (map (segment_at k energy breaks) l).
Proof.
  revert ax. induction l as [|i l IH]; intros ax; cbn [fold_left map filter].
  - now rewrite app_nil_r.
  - rewrite IH. unfold PlotSpinResolvedZoom.zoom_step, drawable, plot.
    destruct (segment_at k energy breaks i) as [ks es]. cbn [fst snd].
    destruct ((1 <? length ks) && PlotSpinResolvedZoom.near_fermi es).
    + now rewrite <- app_assoc.
    + reflexivity.
Qed.

(** X2.  The right panel of [plot_spin_resolved_bands] holds exactly the
    lines of the left panel that have an energy with [|E - E_F| < 3], in
    the same order; it never draws a line the left panel does not have. *)
Theorem zoom_panel_filters_left_panel :
  forall (fermi : float) (data : list (float * float)),
    PlotSpinResolvedZoom.plot_spin_resolved_zoom fermi data
    = filter (fun seg => PlotSpinResolvedZoom.near_fermi (snd seg))
             (PlotSpinResolvedBands.plot_spin_resolved_bands fermi data)
    /\ (forall seg,
          In seg (PlotSpinResolvedZoom.plot_spin_resolved_zoom fermi data)
          <-> In seg (PlotSpinResolvedBands.plot_spin_resolved_bands fermi data)
              /\ exists e, In e (snd seg)
                           /\ ltb (SFabs e) PlotSpinResolvedZoom.f3_0 = true).
Proof.
  intros fermi data.
  assert (H : PlotSpinResolvedZoom.plot_spin_resolved_zoom fermi data
              = filter (fun seg => PlotSpinResolvedZoom.near_fermi (snd seg))
                  (PlotSpinResolvedBands.plot_spin_resolved_bands fermi data)).
  { rewrite spin_lines, filter_filter.
    unfold PlotSpinResolvedZoom.plot_spin_resolved_zoom.
    rewrite zoom_fold. reflexivity. }
  split; [exact H|].
  intros seg. rewrite H, filter_In.
  unfold PlotSpinResolvedZoom.near_fermi, PlotSpinResolvedZoom.float_abs.
  now rewrite existsb_exists.
Qed.

Lemma segments_in (k energy : list float) (seg : line) :
  In seg (segments k energy) ->
  exists s e, In (s, e) (adjacent (band_breaks k))
              /\ seg = (slice k s e, slice energy s e).
Proof.
  rewrite segments_adjacent. intros Hin. apply in_map_iff in Hin.
  destruct Hin as [[s e] [Hseg Hp]]. exists s, e. split; [exact Hp|].
  now rewrite <- Hseg.
Qed.

(** X3.  Every line [plot_bands_improved] draws is a run of at least two
    consecutive samples of the file: its x data is a slice of the
    k-coordinates, its y data the same slice of the shifted energies, both
    of one length, and along it no k-coordinate is smaller than the one
    before it.  No line joins samples across a reset of k. *)
Theorem drawn_line_is_one_branch :
  forall (fermi : float) (data : list (float * float)) (ks es : list float),
    In (ks, es) (PlotBandsImproved.plot_bands_improved fermi data) ->
    (exists s e, ks = slice (column0 data) s e
                 /\ es = slice (shift fermi (column1 data)) s e)
    /\ length es = length ks
    /\ 2 <= length ks
    /\ no_descent ks.
Proof.
  intros fermi data ks es Hin.
  rewrite improved_lines, filter_In in Hin. destruct Hin as [Hin Hdraw].
  unfold drawable in Hdraw. cbn [fst] in Hdraw. apply Nat.ltb_lt in Hdraw.
  assert (Hk : In ks (k_segments (column0 data))).
  { rewrite improved_segments_shift in Hin. apply in_map_iff in Hin.
    destruct Hin as [seg [Heq Hseg]]. injection Heq as Hks _. subst ks.
    destruct (segments_in _ _ _ Hseg) as (s & e & Hp & ->).
    unfold k_segments. apply in_map_iff.
    exists (slice (column0 data) s e, slice (column0 data) s e).
    split; [reflexivity|]. rewrite segments_adjacent. apply in_map_iff.
    exists (s, e). split; [reflexivity|exact Hp]. }
  rewrite improved_segments_spin in Hin.
  unfold PlotSpinResolvedBands.spin_segments in Hin.
  destruct (segments_in _ _ _ Hin) as (s & e & Hp & Heq).
  injection Heq as -> ->.
  split; [exists s, e; split; reflexivity|].
  split.
  - rewrite !slice_length. unfold shift, column0, column1.
    now rewrite !length_map.
  - split; [lia|]. intros j Hj. now apply (segment_no_descent (column0 data)).
Qed.

Lemma drawn_line_is_one_branch_witness :
  let data := [(f0_2, f0_0); (f0_1, f0_05); (f0_3, f0_15)] in
  let ks := [f0_1; f0_3] in
  let es := [sub f0_05 f5_0; sub f0_15 f5_0] in
  In (ks, es) (PlotBandsImproved.plot_bands_improved f5_0 data)
  /\ length es = length ks /\ no_descent ks.
Proof.
  intros data ks es.
  assert (Hin : In (ks, es) (PlotBandsImproved.plot_bands_improved f5_0 data))
    by (left; reflexivity).
  destruct (drawn_line_is_one_branch f5_0 data ks es Hin) as (_ & Hl & _ & Hd).
  split; [exact Hin|]. split; [exact Hl|exact Hd].
Defined.

Lemma interior_no_descent (k : list float) : no_descent k -> interior k = [].
Proof.
  intros Hk. unfold interior, range.
  rewrite (filter_ext_in (descent k) (fun _ => false)); [apply filter_false|].
  intros i Hi. apply in_seq in Hi. unfold descent, item.
  destruct i as [|j]; [lia|].
  replace (S j - 1) with j by lia. apply Hk. lia.
Qed.

(** X4.  When no k-coordinate is smaller than the one before it (a single
    pass along the path, sorted or with repeated values), the whole input is
    one segment; it is drawn as one line when it has at least two samples
    and not at all otherwise. *)
Theorem single_branch_single_line :
  forall (fermi : float) (data : list (float * float)),
    no_descent (column0 data) ->
    band_breaks (column0 data) = [0; length data]
    /\ PlotBandsImproved.improved_segments fermi data
       = [(column0 data, shift fermi (column1 data))]
    /\ PlotBandsImproved.plot_bands_improved fermi data
       = if 1 <? length data
         then [(column0 data, shift fermi (column1 data))]
         else [].
Proof.
  intros fermi data Hk.
  pose proof (interior_no_descent _ Hk) as Hi.
  assert (Hlen0 : length (column0 data) = length data)
    by (unfold column0; apply length_map).
  assert (Hlen1 : length (column1 data) = length data)
    by (unfold column1; apply length_map).
  assert (Hseg : PlotBandsImproved.improved_segments fermi data
                 = [(column0 data, shift fermi (column1 data))]).
  { rewrite improved_segments_shift, (segments_two_breaks _ _ Hi).
    cbn [map fst snd]. rewrite Hlen0, <- Hlen1, firstn_all. reflexivity. }
  split; [rewrite band_breaks_eq, Hi, Hlen0; reflexivity|].
  split; [exact Hseg|].
  rewrite improved_lines, Hseg. cbn [filter]. unfold drawable. cbn [fst].
  rewrite Hlen0. destruct (1 <? length data); reflexivity.
Qed.

Lemma single_branch_single_line_witness :
  let data := [(f0_0, f0_1); (f0_0, f0_2); (f0_3, f0_1)] in
  no_descent (column0 data)
  /\ PlotBandsImproved.plot_bands_improved f5_0 data
     = [(column0 data, shift f5_0 (column1 data))].
Proof.
  intros data.
  assert (Hk : no_descent (column0 data)).
  { intros [|[|j]] Hj; try reflexivity. simpl in Hj. lia. }
  destruct (single_branch_single_line f5_0 data Hk) as (_ & _ & H).
  split; [exact Hk|exact H].
Defined.

Lemma adjacent_seq (a n : nat) :
  adjacent (seq a (S n)) = map (fun i => (i, S i)) (seq a n).
Proof.
  revert a. induction n as [|n IH]; intros a; [reflexivity|].
  change (seq a (S (S n))) with (a :: seq (S a) (S n)).
  change (seq (S a) (S n)) with (S a :: seq (S (S a)) n) at 1.
  change (adjacent (a :: S a :: seq (S (S a)) n))
    with ((a, S a) :: adjacent (seq (S a) (S n))).
  rewrite IH. reflexivity.
Qed.

Lemma unit_slices {A : Type} (l : list A) :
  map (fun i => slice l i (S i)) (seq 0 (length l)) = map (fun x => [x]) l.
Proof.
  induction l as [|x l IH]; [reflexivity|].
  cbn [length seq map]. f_equal.
  rewrite <- seq_shift, map_map. rewrite <- IH. apply map_ext. intros i.
  unfold slice. replace (S (S i) - S i) with (S i - i) by lia. reflexivity.
Qed.

Lemma unit_slices_not_drawn (k energy : list float) (l : list nat) :
  filter drawable (map (fun i => (slice k i (S i), slice energy i (S i))) l)
  = [].
Proof.
  induction l as [|i l IH]; [reflexivity|].
  cbn [map filter]. unfold drawable at 1. cbn [fst].
  rewrite slice_length.
  destruct (Nat.ltb_spec 1 (Nat.min (S i - i) (length k - i))); [lia|].
  exact IH.
Qed.

(** X5.  When every k-coordinate is smaller than the one before it, every
    sample is a segment of its own and no band line is drawn at all. *)
Theorem all_resets_nothing_drawn :
  forall (fermi : float) (data : list (float * float)),
    data <> [] ->
    (forall j, S j < length (column0 data) ->
               ltb (nth (S j) (column0 data) nan) (nth j (column0 data) nan)
               = true) ->
    k_segments (column0 data) = map (fun x => [x]) (column0 data)
    /\ PlotBandsImproved.plot_bands_improved fermi data = []
    /\ PlotSpinResolvedBands.plot_spin_resolved_bands fermi data = [].
Proof.
  intros fermi data Hdata Hall.
  set (k := column0 data) in *.
  assert (Hn : 0 < length k)
    by (unfold k, column0; rewrite length_map; destruct data;
        [congruence|simpl; lia]).
  assert (Hi : interior k = seq 1 (length k - 1)).
  { unfold interior, range.
    rewrite (filter_ext_in (descent k) (fun _ => true)).
    - induction (seq 1 (length k - 1)) as [|x l IH]; [reflexivity|].
      cbn [filter]. now rewrite IH.
    - intros i Hin. apply in_seq in Hin. unfold descent, item.
      destruct i as [|j]; [lia|]. replace (S j - 1) with j by lia.
      apply Hall. lia. }
  assert (Hb : band_breaks k = seq 0 (S (length k))).
  { rewrite band_breaks_eq, Hi.
    destruct (length k) as [|n]; [lia|].
    replace (S n - 1) with n by lia.
    change (seq 0 (S (S n))) with (0 :: seq 1 (S n)).
    now rewrite (seq_S n 1). }
  assert (Hseg : forall energy : list float,
             segments k energy
             = map (fun i => (slice k i (S i), slice energy i (S i)))
                   (seq 0 (length k))).
  { intros energy. rewrite segments_adjacent, Hb, adjacent_seq, map_map.
    reflexivity. }
  assert (Hnone : forall energy : list float,
             filter drawable (segments k energy) = []).
  { intros energy. rewrite Hseg. apply unit_slices_not_drawn. }
  split; [|split].
  - unfold k_segments. rewrite Hseg, map_map. cbn [fst]. apply unit_slices.
  - rewrite improved_lines, improved_segments_spin.
    unfold PlotSpinResolvedBands.spin_segments. apply Hnone.
  - rewrite spin_lines. unfold PlotSpinResolvedBands.spin_segments.
    apply Hnone.
Qed.

Lemma all_resets_nothing_drawn_witness :
  let data := [(f0_3, f0_0); (f0_2, f0_05); (f0_1, f0_15)] in
  data <> []
  /\ k_segments (column0 data) = [[f0_3]; [f0_2]; [f0_1]]
  /\ PlotBandsImproved.plot_bands_improved f5_0 data = [].
Proof.
  intros data.
  assert (Hdata : data <> []) by discriminate.
  assert (Hall : forall j, S j < length (column0 data) ->
            ltb (nth (S j) (column0 data) nan) (nth j (column0 data) nan)
            = true).
  { intros [|[|j]] Hj; try reflexivity. simpl in Hj. lia. }
  destruct (all_resets_nothing_drawn f5_0 data Hdata Hall) as (H1 & H2 & _).
  split; [exact Hdata|]. split; [exact H1|exact H2].
Defined.

Lemma nth_map_seq {B : Type} (f : nat -> B) (n j : nat) (d : B) :
  j < n -> nth j (map f (seq 0 n)) d = f j.
Proof.
  intros Hj. rewrite (nth_indep _ d (f 0)) by (now rewrite length_map, length_seq).
  rewrite map_nth, seq_nth by exact Hj. reflexivity.
Qed.

Lemma strongly_sorted_nth (b : list nat) (i j : nat) :
  StronglySorted Nat.lt b -> i < j -> j < length b -> nth i b 0 < nth j b 0.
Proof.
  intros Hs. revert i j. induction Hs as [|x b Hs IH Hx]; intros i j Hij Hj.
  - simpl in Hj. lia.
  - destruct j as [|j]; [lia|]. simpl in Hj.
    destruct i as [|i].
    + cbn [nth]. rewrite Forall_forall in Hx. apply Hx, nth_In. lia.
    + cbn [nth]. apply IH; lia.
Qed.

Lemma last_nth_pred {A : Type} (l : list A) (d : A) :
  last l d = nth (length l - 1) l d.
Proof.
  induction l as [|x [|y l] IH]; try reflexivity.
  change (last (x :: y :: l) d) with (last (y :: l) d). rewrite IH.
  replace (length (x :: y :: l) - 1) with (S (length (y :: l) - 1))
    by (simpl; lia).
  reflexivity.
Qed.

Lemma k_segments_nth (k : list float) (j : nat) :
  j < length (band_breaks k) - 1 ->
  nth j (k_segments k) []
  = slice k (nth j (band_breaks k) 0) (nth (j + 1) (band_breaks k) 0).
Proof.
  intros Hj. unfold k_segments, segments, range. rewrite map_map.
  rewrite Nat.sub_0_r. rewrite nth_map_seq by exact Hj. reflexivity.
Qed.

Lemma k_segments_length (k : list float) :
  length (k_segments k) = length (band_breaks k) - 1.
Proof.
  unfold k_segments, segments, range.
  now rewrite !length_map, length_seq, Nat.sub_0_r.
Qed.

(** X6.  Segments are maximal: each segment after the first starts with a
    k-coordinate smaller than the last k-coordinate of the segment before
    it, so no two consecutive segments could be joined into one branch. *)
Theorem consecutive_segments_reset :
  forall (k : list float) (j : nat),
    S j < length (k_segments k) ->
    ltb (hd nan (nth (S j) (k_segments k) []))
        (last (nth j (k_segments k) []) nan) = true.
Proof.
  intros k j Hj. rewrite k_segments_length in Hj.
  assert (Hk : k <> []) by (intros ->; simpl in Hj; lia).
  pose proof (band_breaks_strictly_sorted k Hk) as Hs.
  rewrite !k_segments_nth by lia.
  set (b := band_breaks k) in *.
  replace (j + 1) with (S j) by lia. replace (S j + 1) with (S (S j)) by lia.
  pose proof (strongly_sorted_nth b j (S j) Hs) as H1.
  pose proof (strongly_sorted_nth b (S j) (S (S j)) Hs) as H2.
  assert (Hm : In (nth (S j) b 0) b) by (apply nth_In; lia).
  assert (He : In (nth (S (S j)) b 0) b) by (apply nth_In; lia).
  apply band_breaks_bound in He.
  set (s := nth j b 0) in *. set (m := nth (S j) b 0) in *.
  set (e := nth (S (S j)) b 0) in *.
  assert (Hsm : s < m) by (apply H1; lia).
  assert (Hme : m < e) by (apply H2; lia).
  assert (Hdesc : descent k m = true)
    by (apply (in_band_breaks k m); [lia|exact Hm]).
  rewrite last_nth_pred, slice_length.
  replace (Nat.min (m - s) (length k - s) - 1) with (m - s - 1) by lia.
  rewrite slice_nth by lia.
  replace (hd nan (slice k m e)) with (nth 0 (slice k m e) nan)
    by (destruct (slice k m e); reflexivity).
  rewrite slice_nth by lia.
  unfold descent, item in Hdesc.
  replace (m + 0) with m by lia. replace (s + (m - s - 1)) with (m - 1) by lia.
  exact Hdesc.
Qed.

Lemma consecutive_segments_reset_witness :
  let k := [f0_0; f0_1; f0_05; f0_3] in
  1 < length (k_segments k)
  /\ nth 0 (k_segments k) [] = [f0_0; f0_1]
  /\ nth 1 (k_segments k) [] = [f0_05; f0_3]
  /\ ltb f0_05 f0_1 = true.
Proof.
  intros k.
  assert (Hj : 1 < length (k_segments k)) by (vm_compute; lia).
  pose proof (consecutive_segments_reset k 0 Hj) as H.
  split; [exact Hj|]. split; [reflexivity|]. split; [reflexivity|exact H].
Defined.

Lemma segments_nonempty (k energy : list float) :
  k <> [] -> Forall (fun seg => fst seg <> []) (segments k energy).
Proof.
  intros Hk. pose proof (band_breaks_strictly_sorted k Hk) as Hs.
  apply Forall_forall. intros seg Hin.
  destruct (segments_in _ _ _ Hin) as (s & e & Hp & ->). cbn [fst].
  pose proof (adjacent_lt _ _ _ Hs Hp) as Hlt.
  destruct (adjacent_in _ _ _ Hp) as [_ He]. apply band_breaks_bound in He.
  intros Hnil. apply (f_equal (@length float)) in Hnil.
  rewrite slice_length in Hnil. simpl in Hnil. lia.
Qed.

Lemma drawn_and_single_samples (segs : list line) :
  Forall (fun seg => fst seg <> []) segs ->
  length (concat (map fst segs))
  = length (concat (map fst (filter drawable segs)))
    + length (filter (fun seg => negb (drawable seg)) segs).
Proof.
  induction 1 as [|seg segs Hseg _ IH]; [reflexivity|].
  cbn [map concat filter]. rewrite length_app, IH.
  destruct (drawable seg) eqn:Hd; cbn [negb map concat length].
  - rewrite length_app. lia.
  - unfold drawable in Hd. apply Nat.ltb_ge in Hd.
    assert (length (fst seg) <> 0)
      by (intros H0; apply Hseg; now apply length_zero_iff_nil).
    lia.
Qed.

(** X7.  On a non-empty input the samples that do not appear on the figure
    are exactly the one-sample segments: the samples of the drawn lines and
    the segments left undrawn add up to the number of samples, and every
    undrawn segment holds one sample. *)
Theorem undrawn_samples_are_isolated :
  forall (fermi : float) (data : list (float * float)),
    data <> [] ->
    length (concat (map fst (PlotBandsImproved.plot_bands_improved fermi data)))
    + length (filter (fun seg => negb (drawable seg))
                     (PlotBandsImproved.improved_segments fermi data))
    = length data
    /\ (forall seg,
          In seg (PlotBandsImproved.improved_segments fermi data) ->
          drawable seg = false -> length (fst seg) = 1).
Proof.
  intros fermi data Hdata.
  assert (Hk : column0 data <> [])
    by (unfold column0; destruct data; [congruence|discriminate]).
  assert (Hne : Forall (fun seg => fst seg <> [])
                       (PlotBandsImproved.improved_segments fermi data)).
  { rewrite improved_segments_shift. apply Forall_forall. intros seg Hin.
    apply in_map_iff in Hin. destruct Hin as [seg0 [<- Hin0]]. cbn [fst].
    pose proof (segments_nonempty (column0 data) (column1 data) Hk) as Hall.
    rewrite Forall_forall in Hall. now apply Hall. }
  split.
  - rewrite improved_lines, <- (drawn_and_single_samples _ Hne).
    destruct (segments_concat (column0 data) (column1 data)) as [Hc _].
    assert (Hc' : concat (map fst (PlotBandsImproved.improved_segments
                                     fermi data)) = column0 data)
      by (rewrite improved_segments_shift, map_map; cbn [fst]; exact Hc).
    rewrite Hc'. unfold column0. apply length_map.
  - intros seg Hin Hdraw. rewrite Forall_forall in Hne.
    specialize (Hne seg Hin). unfold drawable in Hdraw.
    apply Nat.ltb_ge in Hdraw.
    destruct (fst seg) as [|x [|y l]]; [congruence|reflexivity|].
    simpl in Hdraw. lia.
Qed.

Lemma undrawn_samples_are_isolated_witness :
  let data := [(f0_2, f0_0); (f0_1, f0_05); (f0_3, f0_15)] in
  data <> []
  /\ length (concat (map fst (PlotBandsImproved.plot_bands_improved f5_0 data)))
     + length (filter (fun seg => negb (drawable seg))
                      (PlotBandsImproved.improved_segments f5_0 data))
     = 3
  /\ length (filter (fun seg => negb (drawable seg))
                    (PlotBandsImproved.improved_segments f5_0 data)) = 1.
Proof.
  intros data.
  assert (Hdata : data <> []) by discriminate.
  destruct (undrawn_samples_are_isolated f5_0 data Hdata) as [Hsum _].
  split; [exact Hdata|]. split; [exact Hsum|reflexivity].
Defined.

(** * Further properties of the readers *)

Lemma py_float_error (s : str) (e : exn) :
  py_float s = Raise e -> e = ValueError.
Proof.
  unfold py_float.
  destruct (sign (strip s)) as [neg body].
  destruct (PyStr.eqb (lower body) (py "inf")
            || PyStr.eqb (lower body) (py "infinity")); [discriminate|].
  destruct (PyStr.eqb (lower body) (py "nan")); [discriminate|].
  destruct (number body) as [[[m nfrac] rest]|]; [|congruence].
  destruct (exponent rest) as [x [|c r]]; congruence.
Qed.

Lemma comprehension_app {A B : Type} (f : A -> result B) (xs ys : list A) :
  comprehension f (xs ++ ys)
  = (us <- comprehension f xs ;; vs <- comprehension f ys ;; Ok (us ++ vs)).
Proof.
  induction xs as [|x xs IH]; cbn [app comprehension bind].
  - destruct (comprehension f ys); reflexivity.
  - destruct (f x) as [y|e]; cbn [bind]; [|reflexivity]. rewrite IH.
    destruct (comprehension f xs) as [us|e]; cbn [bind]; [|reflexivity].
    destruct (comprehension f ys) as [vs|e]; reflexivity.
Qed.

Lemma comprehension_raise {A B : Type} (f : A -> result B) (xs : list A)
  (x : A) (e : exn) :
  In x xs -> f x = Raise e ->
  (forall y e', f y = Raise e' -> e' = e) ->
  comprehension f xs = Raise e.
Proof.
  intros Hin Hx Honly. induction xs as [|y xs IH]; [destruct Hin|].
  cbn [comprehension]. destruct (f y) as [v|e'] eqn:Hy; cbn [bind].
  - destruct Hin as [->|Hin]; [congruence|]. now rewrite (IH Hin).
  - now rewrite (Honly y e' Hy).
Qed.

Lemma row_of_error (line : str) (e : exn) :
  row_of line = Raise e -> e = ValueError.
Proof.
  unfold row_of. induction (split_ws line) as [|x xs IH];
    cbn [comprehension]; [discriminate|].
  destruct (py_float x) as [v|e'] eqn:Hx; cbn [bind].
  - destruct (comprehension py_float xs) as [vs|e']; cbn [bind];
      [discriminate|]. intros H. injection H as <-. now apply IH.
  - intros H. injection H as <-. now apply (py_float_error x).
Qed.

Lemma bands_rows_retained (lines : list str) :
  bands_rows lines = comprehension row_of (filter retained (map strip lines)).
Proof.
  unfold bands_rows. rewrite read_bands_data_retained. unfold retained_rows.
  destruct (comprehension row_of _); reflexivity.
Qed.

Lemma read_bands_data_rows {ndarray : Type}
  (np_array : list (list float) -> result ndarray) (lines : list str) :
  read_bands_data ndarray np_array lines
  = (rows <- bands_rows lines ;; np_array rows).
Proof.
  rewrite read_bands_data_retained, bands_rows_retained. reflexivity.
Qed.

(** X8.  A data line with a field that [float] rejects makes
    [read_bands_data] raise [ValueError], whatever the other lines hold;
    [np.array] is not reached. *)
Theorem unreadable_field_raises :
  forall (ndarray : Type) (np_array : list (list float) -> result ndarray)
         (lines : list str) (line field : str),
    In line lines ->
    retained (strip line) = true ->
    In field (split_ws (strip line)) ->
    py_float field = Raise ValueError ->
    read_bands_data ndarray np_array lines = Raise ValueError.
Proof.
  intros ndarray np_array lines line field Hline Hkeep Hfield Hfloat.
  rewrite read_bands_data_rows, bands_rows_retained.
  rewrite (comprehension_raise row_of _ (strip line) ValueError);
    [reflexivity| | |].
  - apply filter_In. split; [now apply in_map|exact Hkeep].
  - unfold row_of.
    apply (comprehension_raise py_float _ field ValueError Hfield Hfloat).
    intros y e'. apply py_float_error.
  - intros y e'. apply row_of_error.
Qed.

Lemma unreadable_field_raises_witness :
  let lines := [py "0.0 0.1"; py "0.05 n/a"; py "0.2 0.3"] in
  In (py "0.05 n/a") lines
  /\ retained (strip (py "0.05 n/a")) = true
  /\ In (py "n/a") (split_ws (strip (py "0.05 n/a")))
  /\ py_float (py "n/a") = Raise ValueError
  /\ bands_rows lines = Raise ValueError.
Proof.
  intros lines.
  assert (H1 : In (py "0.05 n/a") lines) by (right; left; reflexivity).
  assert (H2 : retained (strip (py "0.05 n/a")) = true) by reflexivity.
  assert (H3 : In (py "n/a") (split_ws (strip (py "0.05 n/a"))))
    by (right; left; reflexivity).
  assert (H4 : py_float (py "n/a") = Raise ValueError) by reflexivity.
  repeat (split; [assumption|]).
  exact (unreadable_field_raises _ Ok lines _ _ H1 H2 H3 H4).
Defined.

Lemma rows_of_lines_widths (lines : list str) (rows : list (list float)) :
  rows_of_lines lines rows ->
  Forall (fun line => 2 <= length (split_ws line)) lines ->
  Forall (fun row => 2 <= length row) rows /\ length rows = length lines.
Proof.
  induction 1 as [|line row lines rows Hrow _ IH]; intros Hw.
  - split; [constructor|reflexivity].
  - inversion Hw as [|? ? Hline Hrest]; subst.
    destruct (IH Hrest) as [Hall Hlen]. split.
    + constructor; [|exact Hall].
      now rewrite <- (Forall2_length Hrow).
    + simpl. now rewrite Hlen.
Qed.

(** X9.  [read_bands_data] either raises [ValueError] (from [float]) or
    hands [np.array] a list of rows with at least two floats each, at most
    one row per line of the file: columns 0 and 1 exist in every row. *)
Theorem bands_rows_have_two_columns :
  forall (ndarray : Type) (np_array : list (list float) -> result ndarray)
         (lines : list str),
    read_bands_data ndarray np_array lines = Raise ValueError
    \/ exists rows,
         bands_rows lines = Ok rows
         /\ read_bands_data ndarray np_array lines = np_array rows
         /\ Forall (fun row => 2 <= length row) rows
         /\ length rows <= length lines.
Proof.
  intros ndarray np_array lines. rewrite read_bands_data_rows.
  pose proof (bands_rows_retained lines) as Hrows.
  destruct (bands_rows lines) as [rows|e] eqn:Hb.
  - right. exists rows. split; [reflexivity|]. split; [reflexivity|].
    symmetry in Hrows. apply rows_of_lines_comprehension in Hrows.
    apply rows_of_lines_widths in Hrows.
    + destruct Hrows as [Hall Hlen]. split; [exact Hall|]. rewrite Hlen.
      etransitivity; [apply filter_length_le|]. now rewrite length_map.
    + apply Forall_forall. intros line Hin. apply filter_In in Hin.
      destruct Hin as [_ Hkeep]. unfold retained in Hkeep.
      apply andb_prop in Hkeep. destruct Hkeep as [_ Hw].
      now apply Nat.leb_le.
  - left. cbn [bind]. f_equal. symmetry in Hrows.
    destruct (filter retained (map strip lines)) as [|l ls] eqn:Hf;
      [discriminate|].
    clear Hf Hb. revert e Hrows.
    induction (l :: ls) as [|x xs IH]; intros e He; [discriminate|].
    cbn [comprehension] in He.
    destruct (row_of x) as [v|e'] eqn:Hx; cbn [bind] in He.
    + destruct (comprehension row_of xs) as [vs|e'']; cbn [bind] in He;
        [discriminate|]. injection He as <-. now apply IH.
    + injection He as <-. now apply (row_of_error x).
Qed.

(** X10.  The rows read from two lists of lines put end to end are the rows
    of the first followed by the rows of the second; the first line that
    raises decides the exception. *)
Theorem bands_rows_of_concatenation :
  forall (lines1 lines2 : list str),
    bands_rows (lines1 ++ lines2)
    = (rows1 <- bands_rows lines1 ;;
       rows2 <- bands_rows lines2 ;;
       Ok (rows1 ++ rows2)).
Proof.
  intros lines1 lines2. rewrite !bands_rows_retained.
  now rewrite map_app, filter_app, comprehension_app.
Qed.

Lemma lstrip_idempotent (s : str) : lstrip (lstrip s) = lstrip s.
Proof.
  induction s as [|c s IH]; [reflexivity|]. cbn [lstrip].
  destruct (isspace c) eqn:Hc; [exact IH|]. cbn [lstrip]. now rewrite Hc.
Qed.

Lemma lstrip_length (s : str) : length (lstrip s) <= length s.
Proof.
  induction s as [|c s IH]; [reflexivity|]. cbn [lstrip].
  destruct (isspace c); simpl; lia.
Qed.

Lemma lstrip_split (s : str) : exists w, s = w ++ lstrip s.
Proof.
  induction s as [|c s [w IH]]; [exists []; reflexivity|]. cbn [lstrip].
  destruct (isspace c).
  - exists (c :: w). simpl. now rewrite <- IH.
  - exists []. reflexivity.
Qed.

Lemma lstrip_fixed (c : ascii) (s : str) :
  lstrip (c :: s) = c :: s -> isspace c = false.
Proof.
  cbn [lstrip]. destruct (isspace c); [|reflexivity].
  intros H. pose proof (lstrip_length s) as Hl. rewrite H in Hl.
  simpl in Hl. lia.
Qed.

Lemma strip_idempotent (s : str) : strip (strip s) = strip s.
Proof.
  unfold strip. set (t := lstrip s).
  assert (Ht : lstrip t = t) by apply lstrip_idempotent.
  assert (Hl : lstrip (rstrip t) = rstrip t).
  { destruct (lstrip_split (rev t)) as [w Hw].
    apply (f_equal (@rev ascii)) in Hw.
    rewrite rev_involutive, rev_app_distr in Hw. fold (rstrip t) in Hw.
    destruct (rstrip t) as [|c u] eqn:Hr; [reflexivity|].
    rewrite Hw in Ht. cbn [app] in Ht. apply lstrip_fixed in Ht.
    cbn [lstrip]. now rewrite Ht. }
  rewrite Hl. unfold rstrip. now rewrite rev_involutive, lstrip_idempotent.
Qed.

(** X11.  Leading and trailing whitespace of the lines does not matter to
    [read_bands_data]: reading the stripped lines gives the same result,
    the same rows or the same exception. *)
Theorem read_bands_data_ignores_padding :
  forall (ndarray : Type) (np_array : list (list float) -> result ndarray)
         (lines : list str),
    read_bands_data ndarray np_array (map strip lines)
    = read_bands_data ndarray np_array lines.
Proof.
  intros ndarray np_array lines. rewrite !read_bands_data_retained.
  unfold retained_rows. rewrite map_map.
  rewrite (map_ext (fun l => strip (strip l)) strip strip_idempotent).
  reflexivity.
Qed.

(** ** The value between the markers *)

Lemma before_plain (sep : str) (c : ascii) (s : str) :
  startswith sep (c :: s) = false -> before sep (c :: s) = c :: before sep s.
Proof.
  intros H. unfold before. cbn [find]. rewrite H.
  destruct (find sep s); reflexivity.
Qed.

Lemma startswith_head (a : ascii) (sep : str) (c : ascii) (s : str) :
  Ascii.eqb a c = false -> startswith (a :: sep) (c :: s) = false.
Proof. intros H. cbn [startswith]. now rewrite H. Qed.

Lemma between_markers (mid post : str) :
  forallb plain_char mid = true ->
  before (py "eV") (before (py "EFermi =") (mid ++ py "eV" ++ post)) = mid.
Proof.
  induction mid as [|c mid IH]; intros Hmid.
  - cbn [app]. change (py "eV" ++ post) with ("e"%char :: "V"%char :: post).
    rewrite before_plain by reflexivity.
    rewrite (before_plain (py "EFermi =") "V" post) by reflexivity.
    reflexivity.
  - cbn [forallb] in Hmid. apply andb_prop in Hmid. destruct Hmid as [Hc Hmid].
    unfold plain_char in Hc. apply andb_prop in Hc. destruct Hc as [He HE].
    apply negb_true_iff in He, HE. rewrite Ascii.eqb_sym in He, HE.
    cbn [app].
    rewrite before_plain by (apply (startswith_head "E" _ c); exact HE).
    rewrite before_plain by (apply (startswith_head "e" _ c); exact He).
    now rewrite IH.
Qed.

(** X12.  When the first [EFermi =] of the header is followed by a text
    without the letters [e] and [E] and then by [eV], the reader returns
    [float] of that text, stripped; what stands before the marker and after
    the unit plays no part. *)
Theorem read_dos_fermi_value_between_markers :
  forall (pre mid post : str),
    find (py "EFermi =") (pre ++ py "EFermi =" ++ mid ++ py "eV" ++ post)
    = Some (length pre) ->
    forallb plain_char mid = true ->
    read_dos_fermi (pre ++ py "EFermi =" ++ mid ++ py "eV" ++ post)
    = py_float (strip mid).
Proof.
  intros pre mid post Hfind Hmid. unfold read_dos_fermi.
  rewrite split_second by discriminate. rewrite Hfind. cbn [bind].
  rewrite split_head by discriminate. cbn [bind].
  replace (skipn (length pre + length (py "EFermi ="))
                 (pre ++ py "EFermi =" ++ mid ++ py "eV" ++ post))
    with (mid ++ py "eV" ++ post).
  - now rewrite between_markers.
  - rewrite skipn_app, skipn_all2 by lia.
    replace (length pre + length (py "EFermi =") - length pre)
      with (length (py "EFermi =")) by lia.
    reflexivity.
Qed.

Lemma read_dos_fermi_value_between_markers_witness :
  let pre := py "#  E (eV)   dosup(E)     dosdw(E)   Int dos(E) " in
  let mid := py "   5.0 " in
  let post := ["010"%char] in
  find (py "EFermi =") (pre ++ py "EFermi =" ++ mid ++ py "eV" ++ post)
  = Some (length pre)
  /\ forallb plain_char mid = true
  /\ read_dos_fermi (pre ++ py "EFermi =" ++ mid ++ py "eV" ++ post) = Ok f5_0.
Proof.
  intros pre mid post.
  assert (H1 : find (py "EFermi =")
                 (pre ++ py "EFermi =" ++ mid ++ py "eV" ++ post)
               = Some (length pre)) by reflexivity.
  assert (H2 : forallb plain_char mid = true) by reflexivity.
  split; [exact H1|]. split; [exact H2|].
  rewrite (read_dos_fermi_value_between_markers pre mid post H1 H2).
  reflexivity.
Defined.

(** X13.  The two ways [read_dos_fermi] fails are told apart by the
    exception: it raises [IndexError] exactly when the header has no
    [EFermi =], and [ValueError] only when the marker is there and the text
    after it is not a numeral. *)
Theorem read_dos_fermi_failures :
  forall (header : str),
    (read_dos_fermi header = Raise IndexError
     <-> find (py "EFermi =") header = None)
    /\ (read_dos_fermi header = Raise ValueError ->
        find (py "EFermi =") header <> None)
    /\ (forall e, read_dos_fermi header = Raise e ->
                  e = IndexError \/ e = ValueError).
Proof.
  intros header. unfold read_dos_fermi.
  rewrite split_second by discriminate.
  destruct (find (py "EFermi =") header) as [n|]; cbn [bind].
  - rewrite split_head by discriminate. cbn [bind].
    split; [|split].
    + split; [|discriminate]. intros H. apply py_float_error in H.
      discriminate.
    + discriminate.
    + intros e H. right. now apply py_float_error in H.
  - split; [|split].
    + split; reflexivity.
    + discriminate.
    + intros e H. left. congruence.
Qed.

Lemma read_dos_fermi_failures_witness :
  find (py "EFermi =") (py "EFermi = n/a eV") <> None
  /\ read_dos_fermi (py "EFermi = n/a eV") = Raise ValueError.
Proof.
  assert (H : read_dos_fermi (py "EFermi = n/a eV") = Raise ValueError)
    by reflexivity.
  destruct (read_dos_fermi_failures (py "EFermi = n/a eV")) as (_ & Hv & _).
  split; [exact (Hv H)|exact H].
Defined.

(** * [analyze_band_structure] *)

Lemma filter_length_permutation {A : Type} (f : A -> bool) (l l' : list A) :
  Permutation l l' -> length (filter f l) = length (filter f l').
Proof.
  induction 1 as [|x l l' _ IH|x y l|l l' l'' _ IH1 _ IH2]; cbn [filter].
  - reflexivity.
  - destruct (f x); simpl; now rewrite IH.
  - destruct (f x), (f y); reflexivity.
  - now rewrite IH1.
Qed.

Lemma crossing_points_permutation (energy energy' : list float) :
  Permutation energy energy' ->
  AnalyzeBandStructure.crossing_points energy
  = AnalyzeBandStructure.crossing_points energy'.
Proof.
  intros H. unfold AnalyzeBandStructure.crossing_points,
    AnalyzeBandStructure.fermi_crossings.
  apply filter_length_permutation. now apply Permutation_map.
Qed.

Lemma crossing_points_positive (energy : list float) :
  0 < AnalyzeBandStructure.crossing_points energy
  <-> exists e, In e energy
                /\ ltb (SFabs e) AnalyzeBandStructure.tolerance = true.
Proof.
  unfold AnalyzeBandStructure.crossing_points,
    AnalyzeBandStructure.fermi_crossings.
  split.
  - intros Hpos.
    destruct (filter (fun b : bool => b) _) as [|b bs] eqn:Hf;
      [simpl in Hpos; lia|].
    assert (Hin : In b (b :: bs)) by (left; reflexivity).
    rewrite <- Hf in Hin. apply filter_In in Hin. destruct Hin as [Hin Hb].
    apply in_map_iff in Hin. destruct Hin as [e [He Hin]].
    exists e. split; [exact Hin|]. now rewrite He.
  - intros [e [Hin He]].
    assert (Hb : In true (filter (fun b : bool => b)
              (map (fun e0 => ltb (SFabs e0) AnalyzeBandStructure.tolerance)
                   energy))).
    { apply filter_In. split; [|reflexivity]. apply in_map_iff.
      exists e. split; [exact He|exact Hin]. }
    destruct (filter (fun b : bool => b) _); [destruct Hb|simpl; lia].
Qed.

(** X14.  [analyze_band_structure] raises [IndexError] at [data[:, 1]] when
    the loaded array is one-dimensional (a file of no row or of one row) or
    has fewer than two columns.  On an array of at least one row and two
    columns it reports the number of rows, a number of points at the Fermi
    level that is at most that, and the metallic branch exactly when some
    row has [|E - E_F| < 0.1] as floats; the report does not depend on the
    order of the rows. *)
Theorem band_analysis_on_array :
  forall (fermi : float),
    (forall values,
       AnalyzeBandStructure.analyze_band_structure fermi (Array1 values)
       = Raise IndexError)
    /\ (forall ncols rows,
          ncols < 2 ->
          AnalyzeBandStructure.analyze_band_structure fermi (Array2 ncols rows)
          = Raise IndexError)
    /\ (forall ncols rows,
          2 <= ncols -> rows <> [] ->
          exists points,
            AnalyzeBandStructure.analyze_band_structure fermi
              (Array2 ncols rows)
            = Ok (length rows, points, 0 <? points)
            /\ points <= length rows
            /\ (0 < points
                <-> exists row,
                      In row rows
                      /\ ltb (SFabs (sub (nth 1 row nan) fermi))
                             AnalyzeBandStructure.tolerance = true)
            /\ (forall rows',
                  Permutation rows rows' ->
                  AnalyzeBandStructure.analyze_band_structure fermi
                    (Array2 ncols rows')
                  = AnalyzeBandStructure.analyze_band_structure fermi
                      (Array2 ncols rows))).
Proof.
  intros fermi. split; [reflexivity|]. split.
  - intros ncols rows Hn.
    unfold AnalyzeBandStructure.analyze_band_structure, column.
    destruct (Nat.ltb_spec 1 ncols); [lia|reflexivity].
  - intros ncols rows Hn Hrows.
    set (energy := fun rs : list (list float) =>
                     shift fermi (map (fun row => nth 1 row nan) rs)).
    assert (Hrun : forall rs, rs <> [] ->
              AnalyzeBandStructure.analyze_band_structure fermi
                (Array2 ncols rs)
              = Ok (length rs,
                    AnalyzeBandStructure.crossing_points (energy rs),
                    0 <? AnalyzeBandStructure.crossing_points (energy rs))).
    { intros rs Hrs.
      unfold AnalyzeBandStructure.analyze_band_structure, column.
      destruct (Nat.ltb_spec 1 ncols); [|lia]. cbn [bind]. fold (energy rs).
      destruct rs as [|r rs]; [congruence|]. reflexivity. }
    exists (AnalyzeBandStructure.crossing_points (energy rows)).
    split; [apply Hrun, Hrows|]. split; [|split].
    + unfold AnalyzeBandStructure.crossing_points,
        AnalyzeBandStructure.fermi_crossings, energy, shift.
      etransitivity; [apply filter_length_le|]. now rewrite !length_map.
    + rewrite crossing_points_positive. unfold energy, shift. split.
      * intros [e [Hin He]]. apply in_map_iff in Hin.
        destruct Hin as [e0 [<- Hin]]. apply in_map_iff in Hin.
        destruct Hin as [row [<- Hin]]. exists row. split; assumption.
      * intros [row [Hin He]]. exists (sub (nth 1 row nan) fermi).
        split; [|exact He].
        apply (in_map (fun e0 => sub e0 fermi)).
        apply (in_map (fun r => nth 1 r nan)), Hin.
    + intros rows' Hperm.
      assert (Hrows' : rows' <> []).
      { intros ->. apply Permutation_sym, Permutation_nil in Hperm.
        contradiction. }
      rewrite (Hrun rows Hrows), (Hrun rows' Hrows').
      rewrite <- (Permutation_length Hperm).
      rewrite (crossing_points_permutation (energy rows) (energy rows'));
        [reflexivity|].
      unfold energy, shift. now repeat apply Permutation_map.
Qed.

Lemma band_analysis_on_array_witness :
  let rows := [[f0_0; f0_3]; [f0_1; f5_0]; [f0_2; f0_15]] in
  let rows' := [[f0_1; f5_0]; [f0_0; f0_3]; [f0_2; f0_15]] in
  2 <= 2 /\ rows <> [] /\ Permutation rows rows'
  /\ AnalyzeBandStructure.analyze_band_structure f5_0 (Array2 2 rows')
     = Ok (3, 1, true).
Proof.
  intros rows rows'.
  assert (Hn : 2 <= 2) by lia.
  assert (Hrows : rows <> []) by discriminate.
  assert (Hperm : Permutation rows rows') by apply perm_swap.
  destruct (band_analysis_on_array f5_0) as (_ & _ & H).
  destruct (H 2 rows Hn Hrows) as (points & _ & _ & _ & Hp).
  split; [exact Hn|]. split; [exact Hrows|]. split; [exact Hperm|].
  rewrite (Hp rows' Hperm). reflexivity.
Defined.

(** The constants of the comparisons are the floats of their literals. *)
Lemma comparison_constants_read :
  py_float (py "3") = Ok PlotSpinResolvedZoom.f3_0
  /\ py_float (py "0.1") = Ok AnalyzeBandStructure.tolerance.
Proof. split; vm_compute; reflexivity. Qed.
